(** * signalk-windy-observations: the discovery and normalisation pipeline

    A shallow embedding of [index.js]: the tile locator [deg2num], the unit
    converters, the exclusion filter, the directory decoding loop of
    [retrieveObservations], the station fetcher [retrieveStationData] and the
    two timers set by [plugin.start].

    JavaScript numbers are IEEE 754 binary64 values and are modelled by Rocq's
    primitive floats, whose operations are the same binary64 operations.
    Callback-style code is modelled by effect trees: a function returns the
    effects it performs, and an HTTP request carries its callback. *)

From Stdlib Require Import ZArith List String Ascii Bool Lia.
From Stdlib Require Import Floats.
Import ListNotations.

Set Warnings "-inexact-float,-register-all".

Open Scope string_scope.
Open Scope Z_scope.

(* ================================================================== *)
(** * JavaScript numbers *)
(* ================================================================== *)

Module JsNumber.

(** [Math.PI], which is also mathjs's [math.pi]. *)
Definition PI : float := 0x1.921fb54442d18p+1%float.

(** The exact value of a finite double is [(-1)^s * m * 2^e]; [Prim2SF]
    gives [s], [m] and [e]. *)

(** Truncation toward zero of [(-1)^s * m * 2^e]. *)
Definition trunc_sme (s : bool) (m : positive) (e : Z) : Z :=
  let a := Z.shiftl (Zpos m) e in if s then - a else a.

(** Mathematical floor of [(-1)^s * m * 2^e]. *)
Definition floor_sme (s : bool) (m : positive) (e : Z) : Z :=
  Z.shiftl (if s then Zneg m else Zpos m) e.

(** Mathematical ceiling of [(-1)^s * m * 2^e]. *)
Definition ceil_sme (s : bool) (m : positive) (e : Z) : Z :=
  - Z.shiftl (if s then Zpos m else Zneg m) e.

(** ** Number::toString, ECMAScript 6.1.6.1.20

    For a positive finite [x] the standard takes integers [n], [k], [s]
    with [k >= 1], [10^(k-1) <= s < 10^k], such that [s * 10^(n-k)] rounds
    to [x], [k] as small as possible, and among several [s] the one
    closest to [x] (the even one on a tie).  A decimal rounds to
    [x = m * 2^e] exactly when it lies in the interval between the
    midpoints to the neighbouring doubles, the ends included when [m] is
    even.  All quantities below are in units of [2^(e-2)], where [x] is
    [4m] and the midpoints are integers. *)

(** [c * 10^p] against [N * 2^E] is [c * sideB E p] against
    [N * sideA E p]. *)
Definition sideA (E p : Z) : Z := 2 ^ Z.max E 0 * 10 ^ Z.max (- p) 0.
Definition sideB (E p : Z) : Z := 10 ^ Z.max p 0 * 2 ^ Z.max (- E) 0.

(** The [n] with [10^(n-1) <= X/Y < 10^n]: upwards from 1 when
    [X/Y >= 1] ([P] is [10^n]), downwards from 0 otherwise ([Q] is
    [10^(-n)]). *)
Fixpoint find_up (fuel : nat) (X Y P n : Z) : Z :=
  match fuel with
  | O => n
  | S f => if X <? P * Y then n else find_up f X Y (10 * P) (n + 1)
  end.

Fixpoint find_down (fuel : nat) (X Y Q n : Z) : Z :=
  match fuel with
  | O => n
  | S f => if X * (10 * Q) <? Y then find_down f X Y (10 * Q) (n - 1) else n
  end.

Definition decimal_magnitude (N E : Z) : Z :=
  let X := N * 2 ^ Z.max E 0 in
  let Y := 2 ^ Z.max (- E) 0 in
  if Y <=? X then find_up 400 X Y 10 1 else find_down 400 X Y 1 0.

(** The candidate with [k] digits, if one rounds to [x]. *)
Definition candidate (N E lowN highN : Z) (incl : bool) (p : Z) : option Z :=
  let A := sideA E p in
  let B := sideB E p in
  let v := N * A in
  let c_lo := v / B in
  let c_hi := c_lo + 1 in
  let lo_ok := if incl then lowN * A <=? c_lo * B else lowN * A <? c_lo * B in
  let hi_ok := if incl then c_hi * B <=? highN * A else c_hi * B <? highN * A in
  match lo_ok, hi_ok with
  | true, true =>
      let d_lo := v - c_lo * B in
      let d_hi := c_hi * B - v in
      if d_lo <? d_hi then Some c_lo
      else if d_hi <? d_lo then Some c_hi
      else if Z.even c_lo then Some c_lo else Some c_hi
  | true, false => Some c_lo
  | false, true => Some c_hi
  | false, false => None
  end.

(** Try [k], [k+1], ... digits; [p = n0 - k] is the exponent of the last
    digit. *)
Fixpoint shortest (fuel : nat) (N E lowN highN : Z) (incl : bool) (p : Z)
  : Z * Z :=
  match candidate N E lowN highN incl p, fuel with
  | Some c, _ => (c, p)
  | None, O => (N * sideA E p / sideB E p, p)
  | None, S f => shortest f N E lowN highN incl (p - 1)
  end.

(** Drop trailing zeros of [c * 10^p] (a carry gives [10 * 10^p]). *)
Fixpoint strip_zeros (fuel : nat) (c p : Z) : Z * Z :=
  match fuel with
  | O => (c, p)
  | S f => if (0 <? c) && (c mod 10 =? 0) then strip_zeros f (c / 10) (p + 1)
           else (c, p)
  end.

(** The digits [s] and the exponent [p] of the last digit, for the
    positive double [m * 2^e]: the printed value is [s * 10^p]. *)
Definition shortest_decimal (m : positive) (e : Z) : Z * Z :=
  let N := 4 * Zpos m in
  let E := e - 2 in
  let lowN := if (Zpos m =? 2 ^ 52) && (-1074 <? e) then N - 1 else N - 2 in
  let highN := N + 2 in
  let incl := Z.even (Zpos m) in
  let n0 := decimal_magnitude N E in
  let '(c, p) := shortest 16 N E lowN highN incl (n0 - 1) in
  strip_zeros 20 c p.

(** Decimal digits of a non-negative integer, most significant first. *)
Fixpoint digits_aux (fuel : nat) (c : Z) (acc : list Z) : list Z :=
  match fuel with
  | O => c :: acc
  | S f => if c <? 10 then c :: acc
           else digits_aux f (c / 10) (c mod 10 :: acc)
  end.

Definition digits (c : Z) : list Z :=
  digits_aux (Z.to_nat (Z.log2 c)) c [].

Definition digit_char (d : Z) : ascii :=
  ascii_of_nat (48 + Z.to_nat d).

Definition digit_string (ds : list Z) : string :=
  string_of_list_ascii (map digit_char ds).

Definition zeros (n : Z) : list Z := repeat 0 (Z.to_nat n).

(** Steps 6 to 12 of Number::toString, on the digits [ds] ([k] of them)
    and [n]. *)
Definition format_positive (ds : list Z) (n : Z) : string :=
  let k := Z.of_nat (List.length ds) in
  if (k <=? n) && (n <=? 21) then
    digit_string (ds ++ zeros (n - k))%list
  else if (0 <? n) && (n <=? 21) then
    digit_string (firstn (Z.to_nat n) ds) ++ "." ++
    digit_string (skipn (Z.to_nat n) ds)
  else if (-6 <? n) && (n <=? 0) then
    "0." ++ digit_string (zeros (- n) ++ ds)%list
  else
    let e := n - 1 in
    let es := (if e <? 0 then "-" else "+") ++ digit_string (digits (Z.abs e)) in
    match ds with
    | [d] => digit_string [d] ++ "e" ++ es
    | d :: rest => digit_string [d] ++ "." ++ digit_string rest ++ "e" ++ es
    | [] => "e" ++ es
    end.

(** The integer part of [c * 10^p], for [c >= 0]. *)
Definition int_part (c p : Z) : Z :=
  if 0 <=? p then c * 10 ^ p else c / 10 ^ (- p).

(** [n] of Number::toString: the position of the decimal point in the
    digits. *)
Definition decimal_point (m : positive) (e : Z) : Z :=
  let '(c, p) := shortest_decimal m e in
  Z.of_nat (List.length (digits c)) + p.

Definition toString_sf (x : spec_float) : string :=
  match x with
  | S754_nan => "NaN"
  | S754_zero _ => "0"
  | S754_infinity s => if s then "-Infinity" else "Infinity"
  | S754_finite s m e =>
      let '(c, p) := shortest_decimal m e in
      let ds := digits c in
      (if s then "-" else "") ++
      format_positive ds (Z.of_nat (List.length ds) + p)
  end.

Definition toString (x : float) : string := toString_sf (Prim2SF x).

(** ** parseInt, ECMAScript 19.2.5, with no radix

    [parseInt(x)] converts [x] to a string, removes leading white space,
    reads a sign, and takes the longest prefix of decimal digits; with no
    digit the result is NaN ([None]).  The string of a number never starts
    with white space nor with [0x], so those steps do nothing here.  The
    result is a mathematical integer; -0 is 0. *)

Definition is_digit (c : ascii) : bool :=
  let n := nat_of_ascii c in (48 <=? n)%nat && (n <=? 57)%nat.

Definition digit_value (c : ascii) : Z := Z.of_nat (nat_of_ascii c) - 48.

(** The value of the longest prefix of digits; [seen] tells whether a
    digit was read. *)
Fixpoint read_digits (s : string) (acc : Z) (seen : bool) : option Z :=
  match s with
  | String c r =>
      if is_digit c then read_digits r (10 * acc + digit_value c) true
      else if seen then Some acc else None
  | EmptyString => if seen then Some acc else None
  end.

Definition parseInt_string (s : string) : option Z :=
  match s with
  | String "-" r => option_map Z.opp (read_digits r 0 false)
  | String "+" r => read_digits r 0 false
  | _ => read_digits s 0 false
  end.

Definition parseInt (x : float) : option Z := parseInt_string (toString x).

(** The string of a number that is an integer or NaN, as template literals
    print a tile coordinate. *)
Definition int_toString (z : option Z) : string :=
  match z with
  | None => "NaN"
  | Some z => (if z <? 0 then "-" else "") ++ digit_string (digits (Z.abs z))
  end.

(** [2.0 ** zoom] for a natural number [zoom]: exact, and Infinity from
    [2 ** 1024] on. *)
Fixpoint pow2 (zoom : nat) : float :=
  match zoom with
  | O => 1%float
  | S k => (2 * pow2 k)%float
  end.

End JsNumber.


(* ================================================================== *)
(** * JavaScript values and the operators the plugin uses *)
(* ================================================================== *)

(** A field of a JSON body: a scalar, or [undefined] for a missing key.
    A string is a sequence of UTF-16 code units below 256 (ASCII and
    Latin-1), one [ascii] per code unit. *)
Inductive JsVal : Type :=
  | JUndefined
  | JNull
  | JBool (b : bool)
  | JNum (x : float)
  | JStr (s : string).

(** What the plugin takes from mathjs and from the engine without defining
    it: the value in radians of [math.unit(x, 'deg').to('rad')], [math.tan]
    on that value, [math.asinh], and the conversion of a string to a number
    (ECMAScript's StringToNumber). *)
Class Library : Type := {
  math_to_rad : float -> float;
  math_tan : float -> float;
  math_asinh : float -> float;
  StringToNumber : string -> float
}.

Section Operators.

Context {L : Library}.

Definition ToNumber (v : JsVal) : float :=
  match v with
  | JUndefined => nan
  | JNull => 0%float
  | JBool b => if b then 1%float else 0%float
  | JNum x => x
  | JStr s => StringToNumber s
  end.

(** The string a template literal substitutes for [v]. *)
Definition ToString (v : JsVal) : string :=
  match v with
  | JUndefined => "undefined"
  | JNull => "null"
  | JBool b => if b then "true" else "false"
  | JNum x => JsNumber.toString x
  | JStr s => s
  end.

(** [a * b] *)
Definition js_mul (a b : JsVal) : JsVal :=
  JNum (ToNumber a * ToNumber b)%float.

(** [a + b]: concatenation as soon as one side is a string. *)
Definition js_add (a b : JsVal) : JsVal :=
  match a, b with
  | JStr _, _ | _, JStr _ => JStr (ToString a ++ ToString b)
  | _, _ => JNum (ToNumber a + ToNumber b)%float
  end.

(** [v === null] *)
Definition is_null (v : JsVal) : bool :=
  match v with
  | JNull => true
  | _ => false
  end.

(** [Array.prototype.includes] on an array of strings: SameValueZero, so
    only a string can be found, and by exact comparison. *)
Definition includes (l : list string) (v : JsVal) : bool :=
  match v with
  | JStr s => existsb (String.eqb s) l
  | _ => false
  end.

(** [String.prototype.toLowerCase] on code units below 256: the capital
    letters are A to Z (65 to 90) and the Latin-1 capitals 192 to 222
    without the multiplication sign 215; each has its small letter 32
    above it, and no other code unit changes. *)
Definition lower_char (c : ascii) : ascii :=
  let n := nat_of_ascii c in
  if ((65 <=? n)%nat && (n <=? 90)%nat)
     || ((192 <=? n)%nat && (n <=? 222)%nat && negb (n =? 215)%nat)
  then ascii_of_nat (n + 32) else c.

Fixpoint toLowerCase (s : string) : string :=
  match s with
  | EmptyString => EmptyString
  | String c r => String (lower_char c) (toLowerCase r)
  end.

(** ** The unit converters (index.js, lines 73 to 87) *)

Definition degreesToRadians (value : JsVal) : JsVal :=
  if is_null value then JNull
  else js_mul value (JNum 0.0174533).

Definition celsiusToKelvin (value : JsVal) : JsVal :=
  if is_null value then JNull
  else js_add value (JNum 273.15).

(** ** The tile locator (index.js, lines 156 to 165) *)

Record Tile : Type := { x : option Z; y : option Z }.

(** The two numbers handed to [parseInt]. *)
Definition xtile_value (lon_deg : float) (zoom : nat) : float :=
  ((lon_deg + 180) / 360 * JsNumber.pow2 zoom)%float.

Definition ytile_value (lat_deg : float) (zoom : nat) : float :=
  let lat_rad := math_to_rad lat_deg in
  ((1 - math_asinh (math_tan lat_rad) / JsNumber.PI) / 2
   * JsNumber.pow2 zoom)%float.

Definition deg2num (lat_deg lon_deg : float) (zoom : nat) : Tile :=
  let xtile := JsNumber.parseInt (xtile_value lon_deg zoom) in
  let ytile := JsNumber.parseInt (ytile_value lat_deg zoom) in
  {| x := xtile; y := ytile |}.

End Operators.


(* ================================================================== *)
(** * Effects, requests and their callbacks *)
(* ================================================================== *)

(** The body of the station detail endpoint, as the callback reads it. *)
Record RawReading : Type := {
  name : JsVal;
  time : JsVal;
  lat : JsVal;
  lon : JsVal;
  wind : JsVal;
  gust : JsVal;
  dir : JsVal;
  temp : JsVal
}.

(** The body of the tile directory endpoint: the width field [items] and
    the flat listing [data]. *)
Record Directory : Type := {
  items : JsVal;
  data : list JsVal
}.

(** What [request.get] hands to its callback: a transport error, or a
    response with its status code and parsed body.  [response_json] stands
    for [JSON.stringify(response)], which only the log messages use. *)
Inductive HttpResult (Body : Type) : Type :=
  | HttpError (response_json : string)
  | HttpResponse (statusCode : Z) (response_json : string) (body : Body).

Arguments HttpError {Body} response_json.
Arguments HttpResponse {Body} statusCode response_json body.

(** A published value: a scalar, or the position object. *)
Inductive PubValue : Type :=
  | PScalar (v : JsVal)
  | PPosition (latitude longitude : JsVal).

Record PathValue : Type := { path : string; value : PubValue }.

(** What a function of the plugin does to the outside.  A request carries
    its callback; the callback of the directory request contains a loop and
    takes fuel, [None] meaning that the loop did not finish within it.
    [Throw] is an exception that nothing catches. *)
Inductive effect : Type :=
  | AppDebug (msg : JsVal)
  | HandleMessage (id : string) (values : list PathValue)
  | GetStation (url : string)
      (callback : HttpResult RawReading -> list effect)
  | GetDirectory (url : string)
      (callback : HttpResult Directory -> nat -> option (list effect))
  | Throw (msg : string).

Definition observationsKey : string := "observations.windy".
Definition plugin_id : string := "windy-observations".
Definition checkEveryNMinutes : Z := 15.

Module Timing.
(** Delays in milliseconds. *)
Definition warm_up : Z := 5000.
Definition period : Z := checkEveryNMinutes * 60 * 1000.
End Timing.

Section Plugin.

Context {L : Library}.

(** The array set by [plugin.start]. *)
Variable excludedStations : list string.

(** ** The station fetcher (index.js, lines 89 to 154) *)

(** The callback of the station request.  [station.toLowerCase()] raises a
    TypeError when [station] is not a string. *)
Definition station_callback (station : JsVal) (url : string)
    (res : HttpResult RawReading) : list effect :=
  match res with
  | HttpResponse 200 _ data =>
      match station with
      | JStr st =>
          let stationId := toLowerCase st in
          let key := observationsKey ++ "." ++ stationId in
          let values := [
            {| path := key ++ ".name"; value := PScalar (name data) |};
            {| path := key ++ ".date"; value := PScalar (time data) |};
            {| path := key ++ ".position";
               value := PPosition (lat data) (lon data) |};
            {| path := key ++ ".wind.speed"; value := PScalar (wind data) |};
            {| path := key ++ ".wind.gust"; value := PScalar (gust data) |};
            {| path := key ++ ".wind.direction";
               value := PScalar (degreesToRadians (dir data)) |};
            {| path := key ++ ".temperature";
               value := PScalar (celsiusToKelvin (temp data)) |};
            {| path := key ++ ".url";
               value := PScalar (JStr ("https://www.windy.com/station/"
                                       ++ toLowerCase stationId)) |}
          ] in
          [HandleMessage plugin_id values]
      | _ => [Throw "TypeError"]
      end
  | HttpResponse _ response_json _
  | HttpError response_json =>
      [AppDebug (JStr ("Error retrieving " ++ url ++ ": " ++ response_json))]
  end.

Definition retrieveStationData (station : JsVal) : list effect :=
  if includes excludedStations station then
    [AppDebug (JStr ("Excluded station " ++ ToString station ++ ", skipping"))]
  else
    let url := "https://node.windy.com/pois/stations/" ++ ToString station in
    [AppDebug (JStr ("Retrieving station " ++ ToString station));
     GetStation url (station_callback station url)].

(** ** The directory decoding (index.js, lines 167 to 190) *)

(** [stations.length / data.items]; an array has fewer than 2^32
    elements, so its length is a double. *)
Definition stationCount (d : Directory) : float :=
  (of_uint63 (Uint63.of_Z (Z.of_nat (List.length (data d))))
   / ToNumber (items d))%float.

(** [i < c] for the loop counter.  The counter only takes integer values
    from 0 to 2^53, which are doubles, so the comparison of doubles is
    the comparison of the integer [i] with the exact value of [c]. *)
Definition int_lt_float (i : Z) (c : float) : bool :=
  match Prim2SF c with
  | S754_nan => false
  | S754_infinity s => negb s
  | S754_zero _ => i <? 0
  | S754_finite s m e =>
      let M := if s then Zneg m else Zpos m in
      if 0 <=? e then i <? M * 2 ^ e else i * 2 ^ (- e) <? M
  end.

(** [i++] on a double that holds an integer: exact below 2^53, and
    [2^53 + 1] rounds back to [2^53]. *)
Definition incr (i : Z) : Z := if i <? 2 ^ 53 then i + 1 else i.

(** [stations[j]] *)
Definition element (stations : list JsVal) (j : Z) : JsVal :=
  nth (Z.to_nat j) stations JUndefined.

(** The [for] loop from counter [i] on: the values of [station] it passes
    to [retrieveStationData], one per iteration. *)
Fixpoint station_loop (fuel : nat) (stations : list JsVal) (count : float)
    (i : Z) : option (list JsVal) :=
  match fuel with
  | O => None
  | S f =>
      if int_lt_float i count then
        let station := element stations (i * 7) in
        option_map (cons station) (station_loop f stations count (incr i))
      else Some []
  end.

Definition decode_stations (fuel : nat) (d : Directory)
  : option (list JsVal) :=
  station_loop fuel (data d) (stationCount d) 0.

(** The callback of the directory request.  The message of the error
    branch is a plain string in the source, not a template. *)
Definition directory_callback (res : HttpResult Directory) (fuel : nat)
  : option (list effect) :=
  match res with
  | HttpResponse 200 _ d =>
      option_map (flat_map retrieveStationData) (decode_stations fuel d)
  | HttpResponse _ _ _
  | HttpError _ =>
      Some [AppDebug (JStr "Error retrieving stations ${JSON.stringify(response)}")]
  end.

Definition zoom : nat := 8.

Definition tile_url (t : Tile) : string :=
  "https://node.windy.com/pois/stations/tiles/"
  ++ JsNumber.int_toString (Some (Z.of_nat zoom)) ++ "/"
  ++ JsNumber.int_toString (x t) ++ "/" ++ JsNumber.int_toString (y t).

Definition retrieveObservations (lat lng : float) : list effect :=
  let tiles := deg2num lat lng zoom in
  let url := tile_url tiles in
  [AppDebug (JStr ("Retrieving stations via " ++ url));
   GetDirectory url directory_callback].

(** ** One cycle (index.js, lines 62 to 71) *)

Record Position : Type := { latitude : float; longitude : float }.

(** [position] is what [app.getSelfPath('navigation.position')] returned,
    [None] for [undefined]. *)
Definition checkAndPublishObservations (position : option Position)
  : list effect :=
  match position with
  | None => [AppDebug JUndefined]
  | Some p => retrieveObservations (latitude p) (longitude p)
  end.

End Plugin.

(* ================================================================== *)
(** * The observable trace of an effect tree *)
(* ================================================================== *)

(** The provider: the response to each URL. *)
Record Network : Type := {
  station_response : string -> HttpResult RawReading;
  directory_response : string -> HttpResult Directory
}.

Inductive event : Type :=
  | EvDebug (msg : JsVal)
  | EvRequest (url : string)
  | EvPublish (id : string) (values : list PathValue)
  | EvThrow (msg : string).

(** The events of an effect and of the callbacks it starts, each callback
    right after its request (the plugin fixes no order between responses).
    [None]: a callback did not finish within the fuel. *)
Fixpoint run_effect (net : Network) (fuel : nat) (e : effect)
  : option (list event) :=
  let run_list :=
    fix run_list (es : list effect) : option (list event) :=
      match es with
      | [] => Some []
      | e' :: r =>
          match run_effect net fuel e', run_list r with
          | Some t1, Some t2 => Some (t1 ++ t2)%list
          | _, _ => None
          end
      end in
  match e with
  | AppDebug msg => Some [EvDebug msg]
  | HandleMessage id values => Some [EvPublish id values]
  | Throw msg => Some [EvThrow msg]
  | GetStation url callback =>
      option_map (cons (EvRequest url))
        (run_list (callback (station_response net url)))
  | GetDirectory url callback =>
      match callback (directory_response net url) fuel with
      | None => None
      | Some es => option_map (cons (EvRequest url)) (run_list es)
      end
  end.

Fixpoint run (net : Network) (fuel : nat) (es : list effect)
  : option (list event) :=
  match es with
  | [] => Some []
  | e :: r =>
      match run_effect net fuel e, run net fuel r with
      | Some t1, Some t2 => Some (t1 ++ t2)%list
      | _, _ => None
      end
  end.

Definition is_request (ev : event) : bool :=
  match ev with EvRequest _ => true | _ => false end.

Definition is_publish (ev : event) : bool :=
  match ev with EvPublish _ _ => true | _ => false end.

(* ================================================================== *)
(** * The plugin's life cycle and its timers (index.js, lines 32 to 49) *)
(* ================================================================== *)

Module Scheduler.

(** The code units below 256 that [\s] matches: tab, line feed, vertical
    tab, form feed, carriage return (9 to 13), space (32) and no-break
    space (160). *)
Definition is_space (c : ascii) : bool :=
  let n := nat_of_ascii c in
  ((9 <=? n)%nat && (n <=? 13)%nat) || (n =? 32)%nat || (n =? 160)%nat.

(** [excludeList.split(/\s*,\s*/)]: the separators are the commas with
    the white space around them; white space at the ends of the string
    stays.  [cur] is the current piece and [ws] the white space read
    after it, both reversed; [skip] holds right after a separator. *)
Fixpoint split_aux (s : list ascii) (cur ws : list ascii) (skip : bool)
  : list string :=
  match s with
  | [] => [string_of_list_ascii (rev (ws ++ cur))]
  | c :: r =>
      if (c =? ",")%char then
        string_of_list_ascii (rev cur) :: split_aux r [] [] true
      else if is_space c then
        if skip then split_aux r cur ws true
        else split_aux r cur (c :: ws) false
      else split_aux r (c :: ws ++ cur) [] false
  end.

Definition split (s : string) : list string :=
  split_aux (list_ascii_of_string s) [] [] false.

Record Options : Type := { excludeList : option string }.

(** A pending timer; both callbacks call [checkAndPublishObservations]. *)
Inductive timer : Type :=
  | Timeout (due : Z)
  | Interval (due : Z) (period : Z).

Definition due_time (t : timer) : Z :=
  match t with
  | Timeout d => d
  | Interval d _ => d
  end.

(** The closure's variable [excludedStations], the timers of the event
    loop, and the time in milliseconds. *)
Record Runtime : Type := {
  clock : Z;
  excludedStations : list string;
  timers : list timer
}.

Definition plugin_start (options : Options) (rt : Runtime) : Runtime :=
  {| clock := clock rt;
     excludedStations :=
       match excludeList options with
       | Some (String c r) => split (String c r)
       | _ => []
       end;
     timers :=
       (timers rt ++
        [Timeout (clock rt + Timing.warm_up);
         Interval (clock rt + Timing.period) Timing.period])%list |}.

(** [plugin.stop] has an empty body. *)
Definition plugin_stop (rt : Runtime) : Runtime := rt.

(** The timer due first, the older one among equals, and the others. *)
Fixpoint next_timer (l : list timer) : option (timer * list timer) :=
  match l with
  | [] => None
  | t :: r =>
      match next_timer r with
      | Some (u, r') =>
          if due_time u <? due_time t then Some (u, t :: r')
          else Some (t, r)
      | None => Some (t, [])
      end
  end.

(** A one-shot timer is gone once fired; an interval timer is set again. *)
Definition rearm (t : timer) : list timer :=
  match t with
  | Timeout _ => []
  | Interval d p => [Interval (d + p) p]
  end.

Section Firing.

Context {L : Library}.

(** What [app.getSelfPath('navigation.position')] returns at each
    time. *)
Variable position_at : Z -> option Position.

(** The event loop fires the next timer: one cycle, at its due time. *)
Definition fire (rt : Runtime) : option (Runtime * (Z * list effect)) :=
  match next_timer (timers rt) with
  | None => None
  | Some (t, others) =>
      let now := Z.max (clock rt) (due_time t) in
      Some ({| clock := now;
               excludedStations := excludedStations rt;
               timers := (others ++ rearm t)%list |},
            (now, checkAndPublishObservations (excludedStations rt)
                    (position_at now)))
  end.

(** The cycles of the next [n] firings. *)
Fixpoint cycles (n : nat) (rt : Runtime) : list (Z * list effect) :=
  match n with
  | O => []
  | S k =>
      match fire rt with
      | None => []
      | Some (rt', c) => c :: cycles k rt'
      end
  end.

End Firing.

(** The state when the module is loaded: no timer; [excludedStations] is
    not yet defined and is not read before [plugin_start] sets it. *)
Definition loaded : Runtime :=
  {| clock := 0; excludedStations := []; timers := [] |}.

End Scheduler.


(* ================================================================== *)
(** * Reference points of the specification *)
(* ================================================================== *)

(** The decoding rule in the specification's words (section 4.2):
    identifier of station [i] = [listing[i * tupleWidth]]. *)
Definition spec_station_at (listing : list JsVal) (tupleWidth i : Z) : JsVal :=
  element listing (i * tupleWidth).

(** The number of integers [0, 1, 2, ...] below [c]: the ceiling of a
    positive finite [c], 0 for NaN and for [c <= 0], and no number for
    +Infinity. *)
Definition ceiling_count (c : float) : option Z :=
  match Prim2SF c with
  | S754_nan => Some 0
  | S754_infinity s => if s then Some 0 else None
  | S754_zero _ => Some 0
  | S754_finite s m e => Some (Z.max 0 (JsNumber.ceil_sme s m e))
  end.

(** [c] is NaN or at most 2^53: the loop counter can reach it. *)
Definition reachable (c : float) : bool :=
  match ceiling_count c with
  | Some k => k <=? 2 ^ 53
  | None => false
  end.

(** The number of iterations of the decode loop when it terminates. *)
Definition iterations (d : Directory) {L : Library} : nat :=
  match ceiling_count (stationCount d) with
  | Some k => Z.to_nat k
  | None => O
  end.

(** A double is finite: neither NaN nor an infinity. *)
Definition is_finite (c : float) : bool :=
  match Prim2SF c with
  | S754_nan | S754_infinity _ => false
  | _ => true
  end.

(** The decode loop terminates on [d]. *)
Definition terminates (d : Directory) {L : Library} : Prop :=
  exists fuel l, decode_stations fuel d = Some l.

(** [i, i+1, ..., i+n-1] *)
Definition Zrange (i : Z) (n : nat) : list Z :=
  map (fun k => i + Z.of_nat k) (seq 0 n).

(** A provider that fails every request. *)
Definition unreachable_network : Network :=
  {| station_response := fun _ => HttpError "undefined";
     directory_response := fun _ => HttpError "undefined" |}.

(** The end-to-end scenario of the specification, at the tile of latitude
    0 and longitude 0: the directory lists one station, ABC, with width 7,
    and its detail has a name, a direction of 90 degrees, a temperature of
    20 degrees Celsius, a wind of 5 and a gust of 7. *)
Definition scenario_network : Network :=
  {| station_response := fun url =>
       if (url =? "https://node.windy.com/pois/stations/ABC")%string
       then HttpResponse 200 "{}"
              {| name := JStr "Test"; time := JUndefined; lat := JUndefined;
                 lon := JUndefined; wind := JNum 5; gust := JNum 7;
                 dir := JNum 90; temp := JNum 20 |}
       else HttpError "undefined";
     directory_response := fun url =>
       if (url =? "https://node.windy.com/pois/stations/tiles/8/128/128")%string
       then HttpResponse 200 "{}"
              {| items := JNum 7;
                 data := [JStr "ABC"; JNum 0; JNum 0; JNum 0; JNum 0; JNum 0;
                          JNum 0] |}
       else HttpError "undefined" |}.

(** A position provider that always knows the position (0, 0). *)
Definition at_origin (t : Z) : option Position :=
  Some {| latitude := 0; longitude := 0 |}.

(** An interval timer is pending. *)
Definition has_interval (l : list Scheduler.timer) : bool :=
  existsb (fun t => match t with
                    | Scheduler.Interval _ _ => true
                    | Scheduler.Timeout _ => false
                    end) l.

(** Truncation toward zero and floor of a double, as integers. *)
Definition float_trunc (v : float) : option Z :=
  match Prim2SF v with
  | S754_zero _ => Some 0
  | S754_finite s m e => Some (JsNumber.trunc_sme s m e)
  | _ => None
  end.

Definition float_floor (v : float) : option Z :=
  match Prim2SF v with
  | S754_zero _ => Some 0
  | S754_finite s m e => Some (JsNumber.floor_sme s m e)
  | _ => None
  end.

(** [v] is zero, or a finite number of magnitude below 2^53 that
    Number::toString writes without exponent ([-6 < n <= 21]; every
    magnitude from 1e-6 on is so written). *)
Definition plain_decimal (v : float) : bool :=
  match Prim2SF v with
  | S754_zero _ => true
  | S754_finite s m e =>
      (-6 <? JsNumber.decimal_point m e)
      && (JsNumber.decimal_point m e <=? 21)
      && (Z.shiftl (Z.pos m) e <? 2 ^ 53)
  | _ => false
  end.

(** [|a - b| <= tol] on doubles. *)
Definition within (a b tol : float) : bool :=
  (abs (a - b) <=? tol)%float.

(** A library of first-order approximations, exact at 0, to instantiate
    statements at latitude 0. *)
Definition small_angle_library : Library :=
  {| math_to_rad := fun d => (d * (JsNumber.PI / 180))%float;
     math_tan := fun r => r;
     math_asinh := fun t => t;
     StringToNumber := fun _ => nan |}.

(* ================================================================== *)
(** * Vocabulary of the further properties *)
(* ================================================================== *)

(** A written list: a first identifier, then for each further one the
    text before its comma, the text after it, and the identifier. *)
Fixpoint write_list (first : string)
    (rest : list (string * string * string)) : string :=
  match rest with
  | [] => first
  | (w1, w2, s) :: r => first ++ w1 ++ "," ++ w2 ++ write_list s r
  end.

(** No comma in [s]; no comma and no white space in [s]; only white space
    in [s]. *)
Definition comma_free (s : string) : bool :=
  forallb (fun c => negb (c =? ",")%char) (list_ascii_of_string s).

Definition plain_token (s : string) : bool :=
  forallb (fun c => negb (c =? ",")%char && negb (Scheduler.is_space c))
    (list_ascii_of_string s).

Definition blank (s : string) : bool :=
  forallb Scheduler.is_space (list_ascii_of_string s).

(** Every separator is a comma between white space, and every further
    identifier has no comma and no white space. *)
Definition well_written (rest : list (string * string * string)) : bool :=
  forallb (fun x => blank (fst (fst x)) && blank (snd (fst x))
                    && plain_token (snd x)) rest.

Definition is_interval (t : Scheduler.timer) : bool :=
  match t with
  | Scheduler.Interval _ _ => true
  | Scheduler.Timeout _ => false
  end.

Definition count_intervals (l : list Scheduler.timer) : nat :=
  List.length (filter is_interval l).

(** What the host does to the plugin: it starts it, stops it, or its event
    loop fires the next timer. *)
Inductive lifecycle : Type :=
  | Start (options : Scheduler.Options)
  | Stop
  | Fire.

Definition lifecycle_step {L : Library} (position_at : Z -> option Position)
    (rt : Scheduler.Runtime) (ev : lifecycle) : Scheduler.Runtime :=
  match ev with
  | Start options => Scheduler.plugin_start options rt
  | Stop => Scheduler.plugin_stop rt
  | Fire =>
      match Scheduler.fire position_at rt with
      | Some (rt', _) => rt'
      | None => rt
      end
  end.

Definition is_start (ev : lifecycle) : bool :=
  match ev with
  | Start _ => true
  | _ => false
  end.

(** The URLs requested and the messages published in a trace, in order. *)
Definition requested (t : list event) : list string :=
  flat_map (fun ev => match ev with EvRequest url => [url] | _ => [] end) t.

Definition published (t : list event) : list (string * list PathValue) :=
  flat_map (fun ev => match ev with
                      | EvPublish id values => [(id, values)]
                      | _ => []
                      end) t.

(** The endpoint of a station, as [retrieveStationData] writes it. *)
Definition station_url {L : Library} (station : JsVal) : string :=
  "https://node.windy.com/pois/stations/" ++ ToString station.

(** The last components of the eight published paths, in the order of the
    source. *)
Definition observation_fields : list string :=
  [".name"; ".date"; ".position"; ".wind.speed"; ".wind.gust";
   ".wind.direction"; ".temperature"; ".url"].

(** [x] is NaN or has the sign [s]. *)
Definition signed_or_nan (s : bool) (x : spec_float) : Prop :=
  match x with
  | S754_nan => True
  | S754_zero s' => s' = s
  | S754_infinity s' => s' = s
  | S754_finite s' _ _ => s' = s
  end.

(** The sign bit of a double is set, or the double is NaN. *)
Definition negative_or_nan (c : float) : bool :=
  match Prim2SF c with
  | S754_nan => true
  | S754_zero s => s
  | S754_infinity s => s
  | S754_finite s _ _ => s
  end.

(* ================================================================== *)
(** * Number::toString and parseInt on known values *)
(* ================================================================== *)

Lemma toString_examples :
  map JsNumber.toString
    [0.1; 0.1 + 0.2; 0.5; 100; 123456789; 1234.5678; 4.35; 0.000001; 1e-7;
     5e-324; 1e21; 123456789012345680000; 0x1p70; 1.7976931348623157e308;
     -0.7111111111111111; 9007199254740992; nan; neg_infinity; -0]%float =
    ["0.1"; "0.30000000000000004"; "0.5"; "100"; "123456789"; "1234.5678";
     "4.35"; "0.000001"; "1e-7"; "5e-324"; "1e+21"; "123456789012345680000";
     "1.1805916207174113e+21"; "1.7976931348623157e+308";
     "-0.7111111111111111"; "9007199254740992"; "NaN"; "-Infinity"; "0"].
Proof. vm_compute. reflexivity. Qed.

Lemma parseInt_examples :
  map JsNumber.parseInt
    [128; 127.99999999999999; 0.9; -0.9; -8.68; -3; 0; -0; 1e21; 5e-7;
     0.000001; nan; infinity]%float =
    [Some 128; Some 127; Some 0; Some 0; Some (-8); Some (-3); Some 0; Some 0;
     Some 1; Some 5; Some 0; None; None].
Proof. vm_compute. reflexivity. Qed.

(** Code units above 127: no-break space (160) is white space, and the
    Latin-1 capitals have small letters, the multiplication sign (215)
    has none. *)
Lemma latin1_examples :
  Scheduler.split (String "A" (String (ascii_of_nat 160) ",B")) = ["A"; "B"] /\
  toLowerCase (String (ascii_of_nat 201) "COLE") =
    String (ascii_of_nat 233) "cole" /\
  lower_char (ascii_of_nat 215) = ascii_of_nat 215.
Proof. repeat split; reflexivity. Qed.

Lemma split_examples :
  Scheduler.split " KSFO , KOAK,ksql ,, a b  " =
    [" KSFO"; "KOAK"; "ksql"; ""; "a b  "] /\
  Scheduler.split "," = [""; ""] /\
  Scheduler.split "abc" = ["abc"].
Proof. repeat split; reflexivity. Qed.

(* ================================================================== *)
(** * Unit converters *)
(* ================================================================== *)

Section UnitConverterFacts.

Context {L : Library}.

Lemma degreesToRadians_null : degreesToRadians JNull = JNull.
Proof. reflexivity. Qed.

Lemma celsiusToKelvin_null : celsiusToKelvin JNull = JNull.
Proof. reflexivity. Qed.

Lemma degreesToRadians_number (v : float) :
  degreesToRadians (JNum v) = JNum (v * 0.0174533)%float.
Proof. reflexivity. Qed.

Lemma celsiusToKelvin_number (v : float) :
  celsiusToKelvin (JNum v) = JNum (v + 273.15)%float.
Proof. reflexivity. Qed.

(** A missing key is [undefined], not [null], and does give NaN. *)
Lemma degreesToRadians_undefined : degreesToRadians JUndefined = JNum nan.
Proof. reflexivity. Qed.

(** The factor is pi/180 cut to six digits: at 180 degrees the result is
    more than 1e-6 away from [Math.PI]. *)
Lemma degreesToRadians_180_error :
  exists r, degreesToRadians (JNum 180) = JNum r /\
            within r JsNumber.PI 1e-6 = false.
Proof. eexists; split; [reflexivity | vm_compute; reflexivity]. Qed.

End UnitConverterFacts.

(** C4: the converters return null for null, which is no number (NaN
    included), and the converted number for a number: [v * 0.0174533] and
    [v + 273.15]. *)
Theorem converters_preserve_null (L : Library) :
  degreesToRadians JNull = JNull /\
  celsiusToKelvin JNull = JNull /\
  (forall r : float,
      degreesToRadians JNull <> JNum r /\ celsiusToKelvin JNull <> JNum r) /\
  (forall v : float,
      degreesToRadians (JNum v) = JNum (v * 0.0174533)%float /\
      celsiusToKelvin (JNum v) = JNum (v + 273.15)%float).
Proof.
  split; [apply degreesToRadians_null |].
  split; [apply celsiusToKelvin_null |].
  split.
  - intro r. split.
    + change (JNull <> JNum r). discriminate.
    + change (JNull <> JNum r). discriminate.
  - intro v; split;
      [apply degreesToRadians_number | apply celsiusToKelvin_number].
Qed.

(** C9, as it stands, fails: 180 degrees converted is more than 1e-6
    away from [Math.PI], which is more than 2^31 times the distance
    between neighbouring doubles there (2^-51): the difference is no
    rounding error. *)
Lemma degreesToRadians_180_is_not_pi :
  exists r : float,
    @degreesToRadians small_angle_library (JNum 180) = JNum r /\
    within r JsNumber.PI 1e-6 = false /\
    within r JsNumber.PI 0x1p-20 = false.
Proof.
  eexists. split; [reflexivity |]. split; vm_compute; reflexivity.
Qed.

(** C9, amended: 0 degrees Celsius is exactly 273.15 kelvins, and 180
    degrees is the double [180 * 0.0174533], which prints as
    3.1415940000000004 and is within 2e-6 of [Math.PI] but not within
    1e-6 (the error, about 1.35e-6, is that of the six-digit factor). *)
Theorem converters_reference_values (L : Library) :
  celsiusToKelvin (JNum 0) = JNum 273.15 /\
  degreesToRadians (JNum 180) = JNum (180 * 0.0174533) /\
  JsNumber.toString (180 * 0.0174533) = "3.1415940000000004" /\
  within (180 * 0.0174533) JsNumber.PI 2e-6 = true /\
  within (180 * 0.0174533) JsNumber.PI 1e-6 = false.
Proof.
  split; [reflexivity |]. split; [reflexivity |].
  repeat split; vm_compute; reflexivity.
Qed.

(* ================================================================== *)
(** * Tile locator: the reference tile *)
(* ================================================================== *)

(** C6: [deg2num] is a function of its three arguments, and at latitude 0,
    longitude 0, zoom 8 it returns the tile (128, 128), for every library
    whose [asinh(tan(0 deg))] is 0. *)
Theorem deg2num_reference_tile (L : Library)
    (H0 : math_asinh (math_tan (math_to_rad 0)) = 0%float) :
  (forall lat lon zoom t1 t2,
      t1 = deg2num lat lon zoom -> t2 = deg2num lat lon zoom -> t1 = t2) /\
  deg2num 0 0 8 = {| x := Some 128; y := Some 128 |}.
Proof.
  split.
  - intros lat lon zoom t1 t2 -> ->. reflexivity.
  - unfold deg2num, ytile_value. rewrite H0. vm_compute. reflexivity.
Qed.

Lemma deg2num_reference_tile_witness :
  @deg2num small_angle_library 0 0 8 = {| x := Some 128; y := Some 128 |}.
Proof.
  apply (deg2num_reference_tile small_angle_library).
  vm_compute. reflexivity.
Defined.

(* ================================================================== *)
(** * Directory decoding *)
(* ================================================================== *)

Section DecodeLoop.

Context {L : Library}.

Lemma Zrange_cons (i : Z) (n : nat) :
  Zrange i (S n) = i :: Zrange (i + 1) n.
Proof.
  unfold Zrange. cbn [seq map]. f_equal; [lia |].
  rewrite <- seq_shift, map_map. apply map_ext. intro k. lia.
Qed.

Lemma Zrange_length (i : Z) (n : nat) : List.length (Zrange i n) = n.
Proof. unfold Zrange. now rewrite length_map, length_seq. Qed.

(** On integers, [i * 2^k < M] is [i < ceiling (M / 2^k)]. *)
Lemma scaled_lt_ceiling (i M D : Z) :
  0 < D -> (i * D <? M) = (i <? - ((- M) / D)).
Proof.
  intro HD.
  pose proof (Z.div_mod (- M) D ltac:(lia)) as Hdm.
  pose proof (Z.mod_pos_bound (- M) D HD) as Hr.
  set (q := (- M) / D) in *. set (r := (- M) mod D) in *.
  destruct (Z.ltb_spec (i * D) M), (Z.ltb_spec i (- q)); try reflexivity; nia.
Qed.

Lemma int_lt_float_ceiling (i : Z) (c : float) :
  0 <= i ->
  int_lt_float i c =
    match ceiling_count c with
    | None => true
    | Some k => i <? k
    end.
Proof.
  intro Hi. unfold int_lt_float, ceiling_count.
  destruct (Prim2SF c) as [s | s | | s m e].
  - destruct (Z.ltb_spec i 0); [lia | reflexivity].
  - destruct s; cbn; [| reflexivity].
    destruct (Z.ltb_spec i 0); [lia | reflexivity].
  - destruct (Z.ltb_spec i 0); [lia | reflexivity].
  - unfold JsNumber.ceil_sme.
    set (M := if s then Z.neg m else Z.pos m).
    replace (if s then Z.pos m else Z.neg m) with (- M) by (subst M; now destruct s).
    destruct (Z.leb_spec 0 e) as [He | He].
    + rewrite Z.shiftl_mul_pow2 by lia.
      replace (- (- M * 2 ^ e)) with (M * 2 ^ e) by ring.
      destruct (Z.ltb_spec i (M * 2 ^ e)), (Z.ltb_spec i (Z.max 0 (M * 2 ^ e)));
        try reflexivity; lia.
    + rewrite Z.shiftl_div_pow2 by lia.
      rewrite (scaled_lt_ceiling i M (2 ^ (- e))) by (apply Z.pow_pos_nonneg; lia).
      destruct (Z.ltb_spec i (- (- M / 2 ^ (- e)))),
               (Z.ltb_spec i (Z.max 0 (- (- M / 2 ^ (- e)))));
        try reflexivity; lia.
Qed.

(** Below a reachable bound [k] the loop runs from [i] to [k - 1], with
    stride 7, and stops. *)
Lemma station_loop_bounded (stations : list JsVal) (c : float) (k : Z) :
  ceiling_count c = Some k -> k <= 2 ^ 53 ->
  forall (n : nat) (i : Z) (fuel : nat),
    0 <= i -> n = Z.to_nat (k - i) -> (n < fuel)%nat ->
    station_loop fuel stations c i =
      Some (map (fun j => element stations (j * 7)) (Zrange i n)).
Proof.
  intros Hc Hk. induction n as [| n IH]; intros i fuel Hi Hn Hfuel.
  - destruct fuel as [| f]; [lia |]. cbn [station_loop].
    rewrite int_lt_float_ceiling, Hc by assumption.
    destruct (Z.ltb_spec i k); [lia | reflexivity].
  - destruct fuel as [| f]; [lia |]. cbn [station_loop].
    rewrite int_lt_float_ceiling, Hc by assumption.
    destruct (Z.ltb_spec i k); [| lia].
    assert (Hincr : incr i = i + 1).
    { unfold incr. destruct (Z.ltb_spec i (2 ^ 53)); [reflexivity | lia]. }
    rewrite Hincr, (IH (i + 1) f) by lia.
    rewrite Zrange_cons. reflexivity.
Qed.

(** Above 2^53 the counter stays at 2^53 and the loop never stops. *)
Lemma station_loop_unbounded (stations : list JsVal) (c : float) :
  reachable c = false ->
  forall (fuel : nat) (i : Z),
    0 <= i <= 2 ^ 53 -> station_loop fuel stations c i = None.
Proof.
  intros Hc. induction fuel as [| f IH]; intros i Hi; [reflexivity |].
  cbn [station_loop]. rewrite int_lt_float_ceiling by lia.
  assert (Hlt : match ceiling_count c with
                | Some k => i <? k | None => true end = true).
  { unfold reachable in Hc. destruct (ceiling_count c) as [k |]; [| reflexivity].
    apply Z.leb_gt in Hc. apply Z.ltb_lt. lia. }
  rewrite Hlt, IH; [reflexivity |].
  unfold incr. destruct (Z.ltb_spec i (2 ^ 53)); lia.
Qed.

Lemma decode_stations_reachable (d : Directory) (fuel : nat) :
  reachable (stationCount d) = true -> (iterations d < fuel)%nat ->
  decode_stations fuel d =
    Some (map (fun j => element (data d) (j * 7)) (Zrange 0 (iterations d))).
Proof.
  unfold reachable, iterations, decode_stations. intros Hr Hfuel.
  destruct (ceiling_count (stationCount d)) as [k |] eqn:Hc; [| discriminate].
  apply Z.leb_le in Hr.
  apply (station_loop_bounded _ _ k Hc Hr); [lia | f_equal; lia | exact Hfuel].
Qed.

Lemma decode_stations_unreachable (d : Directory) (fuel : nat) :
  reachable (stationCount d) = false -> decode_stations fuel d = None.
Proof.
  intro Hr. apply station_loop_unbounded; [exact Hr | lia].
Qed.

(** The loop does not end before its last iteration. *)
Lemma decode_stations_short_fuel (d : Directory) (fuel : nat) :
  reachable (stationCount d) = true -> (fuel <= iterations d)%nat ->
  decode_stations fuel d = None.
Proof.
  unfold reachable, iterations, decode_stations. intros Hr Hle.
  destruct (ceiling_count (stationCount d)) as [k |] eqn:Hc; [| discriminate].
  apply Z.leb_le in Hr.
  assert (Hgen : forall f j, 0 <= j -> (f <= Z.to_nat (k - j))%nat ->
            station_loop f (data d) (stationCount d) j = None).
  { induction f as [| f IH]; intros j Hj Hf; [reflexivity |].
    cbn [station_loop]. rewrite int_lt_float_ceiling, Hc by assumption.
    destruct (Z.ltb_spec j k); [| lia].
    assert (Hincr : incr j = j + 1).
    { unfold incr. destruct (Z.ltb_spec j (2 ^ 53)); [reflexivity | lia]. }
    rewrite Hincr, IH by lia. reflexivity. }
  apply Hgen; [lia |]. replace (k - 0) with k by ring. exact Hle.
Qed.

(** A result of the loop is the list of the offsets 0, 7, 14, ... *)
Lemma decode_stations_result (d : Directory) (fuel : nat) (l : list JsVal) :
  decode_stations fuel d = Some l ->
  reachable (stationCount d) = true /\
  l = map (fun j => element (data d) (j * 7)) (Zrange 0 (iterations d)).
Proof.
  intro Hd. destruct (reachable (stationCount d)) eqn:Hr.
  - split; [reflexivity |].
    destruct (Nat.le_gt_cases fuel (iterations d)) as [Hle | Hgt].
    + rewrite decode_stations_short_fuel in Hd by assumption. discriminate.
    + rewrite (decode_stations_reachable d fuel Hr Hgt) in Hd.
      now injection Hd.
  - rewrite decode_stations_unreachable in Hd by exact Hr. discriminate.
Qed.


End DecodeLoop.

(** C7: with [items] = 7 and a listing of 14 elements the decoder extracts
    exactly two identifiers, the elements at offsets 0 and 7. *)
Theorem decode_two_stations (L : Library) (listing : list JsVal) (fuel : nat)
    (Hlen : List.length listing = 14%nat) (Hfuel : (2 < fuel)%nat) :
  decode_stations fuel {| items := JNum 7; data := listing |} =
    Some [element listing 0; element listing 7].
Proof.
  set (d := {| items := JNum 7; data := listing |}).
  assert (Hc : stationCount d = 2%float).
  { unfold stationCount, d. cbn [data items ToNumber]. rewrite Hlen.
    vm_compute. reflexivity. }
  assert (Hi : iterations d = 2%nat).
  { unfold iterations. rewrite Hc. vm_compute. reflexivity. }
  rewrite decode_stations_reachable.
  - rewrite Hi. reflexivity.
  - rewrite Hc. vm_compute. reflexivity.
  - rewrite Hi. exact Hfuel.
Qed.

Lemma decode_two_stations_witness :
  @decode_stations small_angle_library 3
    {| items := JNum 7;
       data := [JStr "KSFO"; JNum 1; JNum 2; JNum 3; JNum 4; JNum 5; JNum 6;
                JStr "KOAK"; JNum 1; JNum 2; JNum 3; JNum 4; JNum 5; JNum 6] |} =
    Some [JStr "KSFO"; JStr "KOAK"].
Proof.
  apply (decode_two_stations small_angle_library
           [JStr "KSFO"; JNum 1; JNum 2; JNum 3; JNum 4; JNum 5; JNum 6;
            JStr "KOAK"; JNum 1; JNum 2; JNum 3; JNum 4; JNum 5; JNum 6] 3).
  - reflexivity.
  - lia.
Defined.

(** C1: the count uses the provider's width but the index uses the literal
    7.  With width 3 and two tuples the decoder passes [data[0]] and
    [data[7]], which is [undefined], where the rule of the specification
    gives [data[3]]. *)
Theorem decode_ignores_width (L : Library) :
  let d := {| items := JNum 3;
              data := [JStr "A"; JNum 1; JNum 2; JStr "B"; JNum 3; JNum 4] |} in
  decode_stations 3 d = Some [JStr "A"; JUndefined] /\
  spec_station_at (data d) 3 1 = JStr "B".
Proof.
  split; vm_compute; reflexivity.
Qed.

(** Whatever the width, a terminating decode reads the offsets 0, 7, 14,
    ... *)
Lemma decode_stride_is_7 (L : Library) (d : Directory) (fuel : nat)
    (l : list JsVal) (i : nat) :
  decode_stations fuel d = Some l -> (i < List.length l)%nat ->
  nth i l JUndefined = element (data d) (Z.of_nat i * 7).
Proof.
  intros Hd Hi. apply decode_stations_result in Hd as [_ ->].
  rewrite length_map, Zrange_length in Hi.
  rewrite (nth_indep _ JUndefined (element (data d) (0 * 7)))
    by now rewrite length_map, Zrange_length.
  rewrite (map_nth (fun j => element (data d) (j * 7)) (Zrange 0 (iterations d)) 0 i).
  unfold Zrange.
  rewrite (nth_indep _ 0 (0 + Z.of_nat 0)) by now rewrite length_map, length_seq.
  rewrite (map_nth (fun k => 0 + Z.of_nat k) (seq 0 (iterations d)) 0%nat i).
  rewrite seq_nth by exact Hi. reflexivity.
Qed.

(** C10, as it stands, fails: with [items] = 0 and an empty listing the
    count is NaN, which is not finite, and the loop terminates. *)
Lemma termination_is_not_finiteness :
  ~ (forall (L : Library) (d : Directory),
        terminates d <-> is_finite (stationCount d) = true).
Proof.
  intro H.
  destruct (H small_angle_library {| items := JNum 0; data := [] |}) as [H1 _].
  assert (Hfin : is_finite (@stationCount small_angle_library
                              {| items := JNum 0; data := [] |}) = true).
  { apply H1. exists 1%nat, []. reflexivity. }
  vm_compute in Hfin. discriminate.
Qed.

(** A count of minus infinity ([items] = -0) also ends the loop at once,
    and a finite count above 2^53 ([items] = 1e-16) never does. *)
Lemma termination_other_cases (L : Library) :
  decode_stations 1 {| items := JNum (-0); data := [JStr "A"] |} = Some [] /\
  is_finite (stationCount {| items := JNum 1e-16; data := [JStr "A"] |}) = true /\
  forall fuel,
    decode_stations fuel {| items := JNum 1e-16; data := [JStr "A"] |} = None.
Proof.
  split; [vm_compute; reflexivity |].
  split; [vm_compute; reflexivity |].
  intro fuel. apply decode_stations_unreachable. vm_compute. reflexivity.
Qed.

(** C10, amended: the decode loop terminates exactly when the count is NaN
    or at most 2^53; when it terminates it has performed [iterations d]
    iterations, the ceiling of a positive count and none otherwise, and it
    terminates within any larger fuel. *)
Theorem decode_loop_termination (L : Library) (d : Directory) :
  (terminates d <-> reachable (stationCount d) = true) /\
  (forall fuel l, decode_stations fuel d = Some l ->
     List.length l = iterations d) /\
  (reachable (stationCount d) = true ->
     forall fuel, (iterations d < fuel)%nat ->
       exists l, decode_stations fuel d = Some l) /\
  (reachable (stationCount d) = false ->
     forall fuel, decode_stations fuel d = None).
Proof.
  split; [split | split; [| split]].
  - intros (fuel & l & Hd). now apply decode_stations_result in Hd.
  - intro Hr. exists (S (iterations d)). eexists.
    apply decode_stations_reachable; [exact Hr | lia].
  - intros fuel l Hd. apply decode_stations_result in Hd as [_ ->].
    now rewrite length_map, Zrange_length.
  - intros Hr fuel Hfuel. eexists.
    apply decode_stations_reachable; assumption.
  - intros Hr fuel. now apply decode_stations_unreachable.
Qed.

Lemma decode_loop_termination_witness :
  @terminates {| items := JNum 4; data := [JStr "A"] |} small_angle_library /\
  @decode_stations small_angle_library 2
     {| items := JNum 4; data := [JStr "A"] |} = Some [JStr "A"] /\
  (forall fuel,
      @decode_stations small_angle_library fuel
        {| items := JNum 1e-16; data := [JStr "A"] |} = None).
Proof.
  split; [| split].
  - apply (proj1 (decode_loop_termination small_angle_library
                    {| items := JNum 4; data := [JStr "A"] |})).
    vm_compute. reflexivity.
  - vm_compute. reflexivity.
  - apply (proj2 (proj2 (proj2 (decode_loop_termination small_angle_library
                    {| items := JNum 1e-16; data := [JStr "A"] |})))).
    vm_compute. reflexivity.
Defined.

(* ================================================================== *)
(** * Exclusion filter and station fetcher *)
(* ================================================================== *)

Section FetcherFacts.

Context {L : Library}.
Variable net : Network.
Variable fuel : nat.

(** The events of a station request: the request, then its callback. *)
Lemma run_effect_GetStation (url : string)
    (callback : HttpResult RawReading -> list effect) :
  run_effect net fuel (GetStation url callback) =
    option_map (cons (EvRequest url))
      (run net fuel (callback (station_response net url))).
Proof.
  cbn [run_effect]. f_equal.
  induction (callback (station_response net url)) as [| e r IH];
    [reflexivity |].
  cbn [run]. rewrite <- IH. reflexivity.
Qed.

Lemma run_effect_GetDirectory (url : string)
    (callback : HttpResult Directory -> nat -> option (list effect)) :
  run_effect net fuel (GetDirectory url callback) =
    match callback (directory_response net url) fuel with
    | None => None
    | Some es => option_map (cons (EvRequest url)) (run net fuel es)
    end.
Proof.
  cbn [run_effect].
  destruct (callback (directory_response net url) fuel) as [es |];
    [| reflexivity].
  f_equal. induction es as [| e r IH]; [reflexivity |].
  cbn [run]. rewrite <- IH. reflexivity.
Qed.

(** The callbacks of the station request always finish. *)
Lemma run_station_callback (station : JsVal) (url : string)
    (res : HttpResult RawReading) :
  exists t, run net fuel (station_callback station url res) = Some t.
Proof.
  unfold station_callback.
  destruct res as [j | code j body].
  - eexists. reflexivity.
  - destruct code as [| q | q]; try (eexists; reflexivity).
    repeat (destruct q as [q | q |]; try (eexists; reflexivity)).
    destruct station; eexists; reflexivity.
Qed.

Lemma includes_In (excluded : list string) (s : string) :
  includes excluded (JStr s) = true <-> In s excluded.
Proof.
  cbn [includes]. rewrite existsb_exists. split.
  - intros (t & Ht & Heq). apply String.eqb_eq in Heq. now subst.
  - intro H. exists s. split; [exact H | apply String.eqb_refl].
Qed.

End FetcherFacts.

(** C5: a station whose identifier is in the exclusion list (exact,
    case-sensitive comparison of strings) only logs a message: its trace
    has no request and no published record, whatever the provider.  For an
    identifier outside the list the request to the station's endpoint is
    issued and its callback runs. *)
Theorem exclusion_short_circuits (L : Library) (excluded : list string)
    (s : string) (net : Network) (fuel : nat) :
  (In s excluded ->
     exists t,
       run net fuel (retrieveStationData excluded (JStr s)) = Some t /\
       t = [EvDebug (JStr ("Excluded station " ++ s ++ ", skipping"))] /\
       existsb is_request t = false /\
       existsb is_publish t = false) /\
  (~ In s excluded ->
     let url := "https://node.windy.com/pois/stations/" ++ s in
     retrieveStationData excluded (JStr s) =
       [AppDebug (JStr ("Retrieving station " ++ s));
        GetStation url (station_callback (JStr s) url)] /\
     exists t,
       run net fuel (station_callback (JStr s) url (station_response net url))
         = Some t /\
       run net fuel (retrieveStationData excluded (JStr s)) =
         Some (EvDebug (JStr ("Retrieving station " ++ s))
               :: EvRequest url :: t)).
Proof.
  split.
  - intro Hin. apply includes_In in Hin.
    unfold retrieveStationData. rewrite Hin.
    eexists. split; [reflexivity |]. repeat split.
  - intros Hout url.
    assert (Hinc : includes excluded (JStr s) = false).
    { destruct (includes excluded (JStr s)) eqn:E; [| reflexivity].
      apply includes_In in E. contradiction. }
    unfold retrieveStationData. rewrite Hinc. cbn [ToString]. fold url.
    split; [reflexivity |].
    destruct (run_station_callback net fuel (JStr s) url
                (station_response net url)) as [t Ht].
    exists t. split; [exact Ht |].
    cbn [run]. rewrite run_effect_GetStation, Ht. cbn.
    rewrite app_nil_r. reflexivity.
Qed.

Lemma exclusion_short_circuits_witness :
  (exists t,
     @run unreachable_network 1
       (@retrieveStationData small_angle_library ["KSFO"; "KOAK"]
          (JStr "KOAK")) = Some t /\
     t = [EvDebug (JStr "Excluded station KOAK, skipping")] /\
     existsb is_request t = false /\
     existsb is_publish t = false) /\
  @retrieveStationData small_angle_library ["KSFO"; "KOAK"] (JStr "koak") =
    [AppDebug (JStr "Retrieving station koak");
     GetStation "https://node.windy.com/pois/stations/koak"
       (@station_callback small_angle_library (JStr "koak")
          "https://node.windy.com/pois/stations/koak")].
Proof.
  split.
  - apply (proj1 (exclusion_short_circuits small_angle_library
                    ["KSFO"; "KOAK"] "KOAK" unreachable_network 1)).
    right; left; reflexivity.
  - apply (proj2 (exclusion_short_circuits small_angle_library
                    ["KSFO"; "KOAK"] "koak" unreachable_network 1)).
    intros [H | [H | []]]; discriminate H.
Defined.

(* ================================================================== *)
(** * Cycles and timers *)
(* ================================================================== *)

Section CycleFacts.

Context {L : Library}.

Lemma run_directory_request (net : Network) (fuel : nat)
    (excluded : list string) (lat lng : float) :
  let url := tile_url (deg2num lat lng zoom) in
  run net fuel (retrieveObservations excluded lat lng) =
    match directory_callback excluded (directory_response net url) fuel with
    | None => None
    | Some es =>
        option_map
          (fun t => EvDebug (JStr ("Retrieving stations via " ++ url))
                    :: EvRequest url :: t)
          (run net fuel es)
    end.
Proof.
  intro url. unfold retrieveObservations. fold url.
  cbn [run]. rewrite run_effect_GetDirectory.
  destruct (directory_callback excluded (directory_response net url) fuel)
    as [es |]; [| reflexivity].
  destruct (run net fuel es) as [t |]; cbn; [| reflexivity].
  rewrite app_nil_r. reflexivity.
Qed.

Lemma next_timer_has_interval (l : list Scheduler.timer) :
  match Scheduler.next_timer l with
  | None => l = []
  | Some (t, others) =>
      has_interval l = has_interval (others ++ Scheduler.rearm t) \/
      (has_interval l = false)
  end.
Proof.
  induction l as [| t r IH]; [reflexivity |].
  cbn [Scheduler.next_timer].
  destruct (Scheduler.next_timer r) as [[u r'] |].
  - destruct (Scheduler.due_time u <? Scheduler.due_time t).
    + destruct IH as [IH | IH].
      * left. unfold has_interval in *. cbn [existsb app].
        rewrite IH. reflexivity.
      * destruct t; [right | left].
        -- unfold has_interval in *. cbn [existsb]. exact IH.
        -- unfold has_interval. reflexivity.
    + left. unfold has_interval. rewrite existsb_app.
      destruct t; cbn; [now rewrite orb_false_r | now rewrite !orb_true_r].
  - left. unfold has_interval. subst r. destruct t; reflexivity.
Qed.

Lemma fire_keeps_interval (position_at : Z -> option Position)
    (rt : Scheduler.Runtime) :
  has_interval (Scheduler.timers rt) = true ->
  exists rt' c,
    Scheduler.fire position_at rt = Some (rt', c) /\
    has_interval (Scheduler.timers rt') = true /\
    Scheduler.excludedStations rt' = Scheduler.excludedStations rt /\
    snd c = checkAndPublishObservations (Scheduler.excludedStations rt)
              (position_at (fst c)).
Proof.
  intro Hi. unfold Scheduler.fire.
  pose proof (next_timer_has_interval (Scheduler.timers rt)) as Hn.
  destruct (Scheduler.next_timer (Scheduler.timers rt)) as [[t others] |].
  - eexists. eexists. split; [reflexivity |].
    cbn [Scheduler.timers Scheduler.excludedStations fst snd].
    split; [| split; reflexivity].
    destruct Hn as [Hn | Hn]; congruence.
  - rewrite Hn in Hi. discriminate.
Qed.

Lemma cycles_never_end (position_at : Z -> option Position) (n : nat) :
  forall rt,
    has_interval (Scheduler.timers rt) = true ->
    List.length (Scheduler.cycles position_at n rt) = n /\
    Forall (fun c =>
              snd c = checkAndPublishObservations
                        (Scheduler.excludedStations rt)
                        (position_at (fst c)))
           (Scheduler.cycles position_at n rt).
Proof.
  induction n as [| n IH]; intros rt Hi; [split; [reflexivity | constructor] |].
  destruct (fire_keeps_interval position_at rt Hi)
    as (rt' & c & Hf & Hi' & He & Hc).
  cbn [Scheduler.cycles]. rewrite Hf.
  destruct (IH rt' Hi') as [Hlen Hall]. split.
  - cbn [List.length]. now rewrite Hlen.
  - constructor; [exact Hc |]. now rewrite <- He.
Qed.

Lemma start_sets_interval (options : Scheduler.Options)
    (rt : Scheduler.Runtime) :
  has_interval (Scheduler.timers (Scheduler.plugin_start options rt)) = true.
Proof.
  unfold Scheduler.plugin_start, has_interval. cbn [Scheduler.timers].
  rewrite existsb_app. cbn. apply orb_true_r.
Qed.

End CycleFacts.

(** C8: a firing without position only logs the absent position: no
    request, no publication, no exception.  With a position the cycle is
    [retrieveObservations] for it: the request for the tile of the position
    at zoom 8, whose callback decodes the listing and fetches the stations.
    Every firing of a timer runs this cycle on the position of that moment. *)
Theorem cycle_skipped_without_position (L : Library) (excluded : list string) :
  (forall net fuel,
      run net fuel (checkAndPublishObservations excluded None) =
        Some [EvDebug JUndefined]) /\
  (forall p : Position,
      let url := tile_url (deg2num (latitude p) (longitude p) 8) in
      checkAndPublishObservations excluded (Some p) =
        [AppDebug (JStr ("Retrieving stations via " ++ url));
         GetDirectory url (directory_callback excluded)]) /\
  (forall (p : Position) net fuel code json d stations,
      let url := tile_url (deg2num (latitude p) (longitude p) 8) in
      directory_response net url = HttpResponse code json d ->
      code = 200 ->
      decode_stations fuel d = Some stations ->
      run net fuel (checkAndPublishObservations excluded (Some p)) =
        option_map
          (fun t => EvDebug (JStr ("Retrieving stations via " ++ url))
                    :: EvRequest url :: t)
          (run net fuel (flat_map (retrieveStationData excluded) stations))) /\
  (forall position_at options rt n,
      Forall (fun c =>
                snd c = checkAndPublishObservations
                          (Scheduler.excludedStations
                             (Scheduler.plugin_start options rt))
                          (position_at (fst c)))
             (Scheduler.cycles position_at n
                (Scheduler.plugin_start options rt))).
Proof.
  split; [| split; [| split]].
  - reflexivity.
  - reflexivity.
  - intros p net fuel code json d stations url Hresp -> Hdec.
    cbn [checkAndPublishObservations].
    rewrite run_directory_request. fold zoom in url. fold url.
    rewrite Hresp. cbn [directory_callback]. rewrite Hdec. reflexivity.
  - intros position_at options rt n.
    apply cycles_never_end, start_sets_interval.
Qed.

Lemma cycle_skipped_without_position_witness :
  @run scenario_network 2
     (@checkAndPublishObservations small_angle_library [] (at_origin 0)) =
    Some
      [EvDebug (JStr "Retrieving stations via https://node.windy.com/pois/stations/tiles/8/128/128");
       EvRequest "https://node.windy.com/pois/stations/tiles/8/128/128";
       EvDebug (JStr "Retrieving station ABC");
       EvRequest "https://node.windy.com/pois/stations/ABC";
       EvPublish "windy-observations"
         [{| path := "observations.windy.abc.name";
             value := PScalar (JStr "Test") |};
          {| path := "observations.windy.abc.date";
             value := PScalar JUndefined |};
          {| path := "observations.windy.abc.position";
             value := PPosition JUndefined JUndefined |};
          {| path := "observations.windy.abc.wind.speed";
             value := PScalar (JNum 5) |};
          {| path := "observations.windy.abc.wind.gust";
             value := PScalar (JNum 7) |};
          {| path := "observations.windy.abc.wind.direction";
             value := PScalar (JNum (90 * 0.0174533)) |};
          {| path := "observations.windy.abc.temperature";
             value := PScalar (JNum (20 + 273.15)) |};
          {| path := "observations.windy.abc.url";
             value := PScalar (JStr "https://www.windy.com/station/abc") |}]].
Proof.
  etransitivity.
  - apply (proj1 (proj2 (proj2
             (cycle_skipped_without_position small_angle_library [])))
             {| latitude := 0; longitude := 0 |} scenario_network 2%nat 200 "{}"
             {| items := JNum 7;
                data := [JStr "ABC"; JNum 0; JNum 0; JNum 0; JNum 0; JNum 0;
                         JNum 0] |}
             [JStr "ABC"]); vm_compute; reflexivity.
  - vm_compute. reflexivity.
Defined.

(* ================================================================== *)
(** * Tile locator: [parseInt] truncates *)
(* ================================================================== *)

Section Digits.

Import JsNumber.

(** The number a list of digits denotes. *)
Lemma is_digit_digit_char (d : Z) :
  0 <= d <= 9 -> is_digit (digit_char d) = true /\ digit_value (digit_char d) = d.
Proof.
  intro H.
  assert (Hc : d = 0 \/ d = 1 \/ d = 2 \/ d = 3 \/ d = 4 \/ d = 5 \/ d = 6 \/
               d = 7 \/ d = 8 \/ d = 9) by lia.
  repeat (destruct Hc as [-> | Hc]; [split; reflexivity |]).
  subst d. split; reflexivity.
Qed.

Lemma digit_string_app (l1 l2 : list Z) :
  digit_string (l1 ++ l2) = (digit_string l1 ++ digit_string l2)%string.
Proof.
  unfold digit_string. induction l1 as [| d l1 IH]; [reflexivity |].
  cbn. now rewrite <- IH.
Qed.

Lemma digit_value_sum (ds : list Z) (acc : Z) :
  fold_left (fun a d => 10 * a + d) ds acc =
    acc * 10 ^ Z.of_nat (List.length ds)
    + fold_left (fun a d => 10 * a + d) ds 0.
Proof.
  revert acc. induction ds as [| d ds IH]; intro acc.
  - cbn. lia.
  - cbn [fold_left List.length]. rewrite IH, (IH (10 * 0 + d)).
    rewrite Nat2Z.inj_succ, Z.pow_succ_r by lia. ring.
Qed.

Lemma digit_value_bound (ds : list Z) :
  Forall (fun d => 0 <= d <= 9) ds ->
  0 <= fold_left (fun a d => 10 * a + d) ds 0 < 10 ^ Z.of_nat (List.length ds).
Proof.
  induction 1 as [| d ds Hd _ IH].
  - cbn. lia.
  - cbn [fold_left List.length]. rewrite digit_value_sum.
    rewrite Nat2Z.inj_succ, Z.pow_succ_r by lia.
    assert (0 < 10 ^ Z.of_nat (List.length ds)) by (apply Z.pow_pos_nonneg; lia).
    nia.
Qed.

(** Reading a string that starts with the digits [ds], followed by
    something that is not a digit. *)
Lemma read_digits_digit_string (ds : list Z) (rest : string) (acc : Z)
    (seen : bool) :
  Forall (fun d => 0 <= d <= 9) ds ->
  read_digits (digit_string ds ++ rest) acc seen =
    read_digits rest (fold_left (fun a d => 10 * a + d) ds acc)
      (seen || negb (Nat.eqb (List.length ds) 0)).
Proof.
  intro H. revert acc seen. induction H as [| d ds Hd _ IH]; intros acc seen.
  - cbn. now rewrite orb_false_r.
  - unfold digit_string in *. cbn [map string_of_list_ascii append read_digits].
    destruct (is_digit_digit_char d Hd) as [-> ->].
    rewrite IH. cbn [fold_left List.length Nat.eqb negb]. now rewrite orb_true_r.
Qed.

Lemma read_digits_all (ds : list Z) (acc : Z) (seen : bool) :
  Forall (fun d => 0 <= d <= 9) ds ->
  read_digits (digit_string ds) acc seen =
    if seen || negb (Nat.eqb (List.length ds) 0)
    then Some (fold_left (fun a d => 10 * a + d) ds acc) else None.
Proof.
  intro H. revert acc seen. induction H as [| d ds Hd _ IH]; intros acc seen.
  - cbn. now rewrite orb_false_r.
  - unfold digit_string in *. cbn [map string_of_list_ascii read_digits].
    destruct (is_digit_digit_char d Hd) as [-> ->].
    rewrite IH. cbn [fold_left List.length Nat.eqb negb orb].
    now rewrite orb_true_r.
Qed.

Lemma digits_aux_value (fuel : nat) (c : Z) (acc : list Z) :
  fold_left (fun a d => 10 * a + d) (digits_aux fuel c acc) 0 =
    c * 10 ^ Z.of_nat (List.length acc)
    + fold_left (fun a d => 10 * a + d) acc 0.
Proof.
  revert c acc. induction fuel as [| f IH]; intros c acc.
  - cbn [digits_aux fold_left]. rewrite digit_value_sum. lia.
  - cbn [digits_aux]. destruct (c <? 10).
    + cbn [fold_left]. rewrite digit_value_sum. lia.
    + rewrite IH. cbn [fold_left List.length].
      rewrite (digit_value_sum acc (10 * 0 + c mod 10)).
      rewrite Nat2Z.inj_succ, Z.pow_succ_r by lia.
      pose proof (Z.div_mod c 10 ltac:(lia)). nia.
Qed.

Lemma digits_aux_range (fuel : nat) (c : Z) (acc : list Z) :
  0 <= c -> Z.log2 c <= Z.of_nat fuel ->
  Forall (fun d => 0 <= d <= 9) acc ->
  Forall (fun d => 0 <= d <= 9) (digits_aux fuel c acc).
Proof.
  revert c acc. induction fuel as [| f IH]; intros c acc Hc Hl Hacc.
  - cbn [digits_aux]. constructor; [| exact Hacc].
    destruct (Z.eq_dec c 0) as [-> | Hne]; [lia |].
    assert (Hlog : Z.log2 c = 0) by (pose proof (Z.log2_nonneg c); lia).
    pose proof (Z.log2_spec c ltac:(lia)) as Hs. rewrite Hlog in Hs.
    cbn in Hs. lia.
  - cbn [digits_aux]. destruct (Z.ltb_spec c 10) as [Hlt | Hge].
    + constructor; [lia | exact Hacc].
    + apply IH.
      * apply Z.div_pos; lia.
      * assert (c / 10 <= c / 2).
        { apply Z.div_le_compat_l; lia. }
        assert (Z.log2 (c / 10) <= Z.log2 (c / 2)) by now apply Z.log2_le_mono.
        rewrite <- Z.div2_div, Z.div2_spec, Z.log2_shiftr in H0 by lia.
        rewrite Nat2Z.inj_succ in Hl. lia.
      * constructor; [| exact Hacc].
        pose proof (Z.mod_pos_bound c 10 ltac:(lia)). lia.
Qed.

Lemma digits_value (c : Z) :
  fold_left (fun a d => 10 * a + d) (digits c) 0 = c.
Proof.
  unfold digits. rewrite digits_aux_value. cbn. lia.
Qed.

Lemma digits_range (c : Z) :
  0 <= c -> Forall (fun d => 0 <= d <= 9) (digits c).
Proof.
  intro Hc. unfold digits. apply digits_aux_range; [exact Hc | | constructor].
  pose proof (Z.log2_nonneg c). lia.
Qed.

Lemma digits_aux_nonempty (fuel : nat) (c : Z) (acc : list Z) :
  digits_aux fuel c acc <> [].
Proof.
  revert c acc. induction fuel as [| f IH]; intros c acc.
  - discriminate.
  - cbn [digits_aux]. destruct (c <? 10); [discriminate | apply IH].
Qed.

Lemma digits_nonempty (c : Z) : digits c <> [].
Proof. apply digits_aux_nonempty. Qed.

(** The first [j] digits denote the quotient by the power of 10 of the
    others. *)
Lemma firstn_value (ds : list Z) (j : nat) :
  Forall (fun d => 0 <= d <= 9) ds -> (j <= List.length ds)%nat ->
  fold_left (fun a d => 10 * a + d) (firstn j ds) 0 =
    fold_left (fun a d => 10 * a + d) ds 0
    / 10 ^ Z.of_nat (List.length ds - j).
Proof.
  intros Hds Hj.
  assert (Hlen : List.length (skipn j ds) = (List.length ds - j)%nat)
    by apply length_skipn.
  assert (Hskip : Forall (fun d => 0 <= d <= 9) (skipn j ds)).
  { rewrite <- (firstn_skipn j ds) in Hds. now apply Forall_app in Hds. }
  assert (Hb := digit_value_bound (skipn j ds) Hskip).
  assert (Hsplit :
            fold_left (fun a d => 10 * a + d) ds 0 =
              fold_left (fun a d => 10 * a + d) (firstn j ds) 0
              * 10 ^ Z.of_nat (List.length (skipn j ds))
              + fold_left (fun a d => 10 * a + d) (skipn j ds) 0).
  { rewrite <- (firstn_skipn j ds) at 1. rewrite fold_left_app.
    apply digit_value_sum. }
  rewrite Hsplit, Hlen in *.
  rewrite Z.div_add_l by (apply Z.pow_nonzero; lia).
  rewrite (Z.div_small _ _ Hb). lia.
Qed.

End Digits.

Section Formatting.

Import JsNumber.

Lemma zeros_value (n : Z) :
  fold_left (fun a d => 10 * a + d) (zeros n) 0 = 0 /\
  Forall (fun d => 0 <= d <= 9) (zeros n) /\
  List.length (zeros n) = Z.to_nat n.
Proof.
  unfold zeros. split; [| split].
  - induction (Z.to_nat n) as [| k IH]; [reflexivity | exact IH].
  - apply Forall_forall. intros d Hd. apply repeat_spec in Hd. lia.
  - apply repeat_length.
Qed.

Lemma digits_below_power (c : Z) :
  0 <= c -> c < 10 ^ Z.of_nat (List.length (digits c)).
Proof.
  intro Hc. pose proof (digit_value_bound (digits c) (digits_range c Hc)) as H.
  rewrite digits_value in H. lia.
Qed.

(** A string that starts with a digit has no sign to read. *)
Lemma parseInt_string_digit (d : Z) (r : string) :
  0 <= d <= 9 ->
  parseInt_string (String (digit_char d) r) =
    read_digits (String (digit_char d) r) 0 false.
Proof.
  intro H.
  assert (Hc : d = 0 \/ d = 1 \/ d = 2 \/ d = 3 \/ d = 4 \/ d = 5 \/ d = 6 \/
               d = 7 \/ d = 8 \/ d = 9) by lia.
  repeat (destruct Hc as [-> | Hc]; [reflexivity |]).
  subst d. reflexivity.
Qed.

(** Reading the decimal notation of [c * 10^p] gives its integer part. *)
Lemma read_format_positive (c p : Z) :
  0 <= c ->
  -6 < Z.of_nat (List.length (digits c)) + p <= 21 ->
  read_digits (format_positive (digits c)
                 (Z.of_nat (List.length (digits c)) + p)) 0 false =
    Some (int_part c p).
Proof.
  intros Hc Hn. unfold format_positive, int_part.
  set (ds := digits c) in *. set (k := Z.of_nat (List.length ds)) in *.
  assert (Hds : Forall (fun d => 0 <= d <= 9) ds) by now apply digits_range.
  assert (Hk : 0 < k).
  { subst k. pose proof (digits_nonempty c). fold ds in H.
    destruct ds; [contradiction | cbn [List.length]; lia]. }
  assert (Hval : fold_left (fun a d => 10 * a + d) ds 0 = c)
    by apply digits_value.
  destruct (Z.leb_spec k (k + p)) as [Hp | Hp]; cbn [andb].
  - (* the digits followed by zeros *)
    destruct (Z.leb_spec (k + p) 21) as [_ | H21]; [| lia].
    destruct (Z.leb_spec 0 p) as [_ | Hneg]; [| lia].
    replace (k + p - k) with p by ring.
    destruct (zeros_value p) as (Hz & Hzr & Hzl).
    rewrite read_digits_all by (apply Forall_app; now split).
    rewrite fold_left_app, digit_value_sum, Hval, Hz, Hzl.
    rewrite length_app. destruct (List.length ds + List.length (zeros p))%nat eqn:E.
    + subst k. lia.
    + cbn. f_equal. rewrite Z2Nat.id by lia. ring.
  - destruct (Z.leb_spec 0 p) as [Hpos | Hneg]; [lia |].
    destruct (Z.ltb_spec 0 (k + p)) as [Hn0 | Hn0]; cbn [andb].
    + (* the first digits, a point, the others *)
      destruct (Z.leb_spec (k + p) 21) as [_ | H21]; [| lia].
      assert (Hfirst : Forall (fun d => 0 <= d <= 9) (firstn (Z.to_nat (k + p)) ds)).
      { rewrite <- (firstn_skipn (Z.to_nat (k + p)) ds) in Hds.
        now apply Forall_app in Hds. }
      rewrite read_digits_digit_string by exact Hfirst.
      cbn [append read_digits]. change (is_digit ".") with false. cbn iota.
      rewrite length_firstn.
      rewrite Nat.min_l by (subst k; lia).
      assert (Hnz : (Z.to_nat (k + p) =? 0)%nat = false)
        by (apply Nat.eqb_neq; lia).
      rewrite Hnz. cbn [negb orb]. f_equal.
      rewrite firstn_value by (assumption || (subst k; lia)).
      rewrite Hval. f_equal. f_equal. subst k. lia.
    + (* zero, a point, zeros and the digits *)
      destruct (Z.ltb_spec (-6) (k + p)) as [_ | H6]; [| lia].
      destruct (Z.leb_spec (k + p) 0) as [_ | H0]; [| lia].
      cbn [andb append read_digits].
      change (is_digit "0") with true. change (is_digit ".") with false.
      change (digit_value "0") with 0. cbn iota.
      f_equal. symmetry. apply Z.div_small. split; [exact Hc |].
      pose proof (digits_below_power c Hc) as Hlt. fold ds k in Hlt.
      assert (10 ^ k <= 10 ^ (- p)) by (apply Z.pow_le_mono_r; lia).
      lia.
Qed.

(** The first character of the decimal notation is a digit. *)
Lemma format_positive_starts_with_digit (c p : Z) :
  0 <= c ->
  -6 < Z.of_nat (List.length (digits c)) + p <= 21 ->
  exists d r, 0 <= d <= 9 /\
    format_positive (digits c) (Z.of_nat (List.length (digits c)) + p) =
      String (digit_char d) r.
Proof.
  intros Hc Hn. unfold format_positive.
  set (ds := digits c) in *. set (k := Z.of_nat (List.length ds)) in *.
  assert (Hds : Forall (fun d => 0 <= d <= 9) ds) by now apply digits_range.
  pose proof (digits_nonempty c) as Hne. fold ds in Hne.
  destruct ds as [| d ds']; [contradiction |].
  inversion Hds as [| ? ? Hd Hds']; subst.
  destruct ((k <=? k + p) && (k + p <=? 21)).
  - exists d. eexists. split; [exact Hd |]. reflexivity.
  - destruct (Z.ltb_spec 0 (k + p)) as [Hn0 | Hn0]; cbn [andb].
    + destruct (Z.leb_spec (k + p) 21) as [_ | H21]; [| lia].
      destruct (Z.to_nat (k + p)) eqn:E; [lia |].
      exists d. eexists. split; [exact Hd |]. reflexivity.
    + destruct (Z.ltb_spec (-6) (k + p)) as [_ | H6]; [| lia].
      destruct (Z.leb_spec (k + p) 0) as [_ | H0]; [| lia].
      exists 0. eexists. split; [lia |]. reflexivity.
Qed.

Lemma parseInt_format (s : bool) (c p : Z) :
  0 <= c ->
  -6 < Z.of_nat (List.length (digits c)) + p <= 21 ->
  parseInt_string
    ((if s then "-" else "") ++
     format_positive (digits c) (Z.of_nat (List.length (digits c)) + p)) =
    Some (if s then - int_part c p else int_part c p).
Proof.
  intros Hc Hn. destruct s.
  - cbn [append parseInt_string].
    rewrite read_format_positive by assumption. reflexivity.
  - cbn [append].
    destruct (format_positive_starts_with_digit c p Hc Hn) as (d & r & Hd & E).
    rewrite <- (read_format_positive c p Hc Hn). rewrite E.
    now apply parseInt_string_digit.
Qed.

End Formatting.

Section ShortestDecimal.

Import JsNumber.

(** The double is [m / 2^k], in units of [1 / 2^(k+2)]. *)
Variable m : positive.
Variable k : Z.
Hypothesis Hk : 0 <= k.

Local Abbreviation D := (2 ^ k).
Local Abbreviation Nm := (4 * Z.pos m).
Local Abbreviation Em := (- k - 2).

Variables lowN highN : Z.
Hypothesis Hlow : Nm - 2 <= lowN < Nm.
Hypothesis Hhigh : highN = Nm + 2.

Lemma D_pos : 0 < D.
Proof. apply Z.pow_pos_nonneg; lia. Qed.

Lemma sideA_eq (p : Z) : sideA Em p = 10 ^ Z.max (- p) 0.
Proof.
  unfold sideA. rewrite (Z.max_r (- k - 2) 0) by lia.
  change (2 ^ 0) with 1. lia.
Qed.

Lemma sideB_eq (p : Z) : sideB Em p = 10 ^ Z.max p 0 * (4 * D).
Proof.
  unfold sideB. rewrite (Z.max_l (- (- k - 2)) 0) by lia.
  replace (- (- k - 2)) with (k + 2) by ring.
  rewrite Z.pow_add_r by lia. change (2 ^ 2) with 4. ring.
Qed.

Lemma sides_pos (p : Z) : 0 < sideA Em p /\ 0 < sideB Em p.
Proof.
  rewrite sideA_eq, sideB_eq. pose proof D_pos.
  assert (0 < 10 ^ Z.max (- p) 0) by (apply Z.pow_pos_nonneg; lia).
  assert (0 < 10 ^ Z.max p 0) by (apply Z.pow_pos_nonneg; lia).
  split; nia.
Qed.

(** A candidate lies between the midpoints. *)
Lemma candidate_interval (incl : bool) (p c : Z) :
  candidate Nm Em lowN highN incl p = Some c ->
  lowN * sideA Em p <= c * sideB Em p <= highN * sideA Em p.
Proof.
  unfold candidate. destruct (sides_pos p) as [HA HB].
  set (A := sideA Em p) in *. set (B := sideB Em p) in *.
  set (c_lo := Nm * A / B).
  assert (Hdiv : c_lo * B <= Nm * A < (c_lo + 1) * B).
  { pose proof (Z.div_mod (Nm * A) B ltac:(lia)).
    pose proof (Z.mod_pos_bound (Nm * A) B HB). subst c_lo. nia. }
  assert (HlowA : lowN * A <= Nm * A) by nia.
  assert (HhighA : Nm * A <= highN * A) by nia.
  intro H.
  destruct incl.
  - destruct (Z.leb_spec (lowN * A) (c_lo * B)) as [Hlo | Hlo];
      destruct (Z.leb_spec ((c_lo + 1) * B) (highN * A)) as [Hhi | Hhi];
      try discriminate H.
    + destruct (_ <? _) in H; [injection H as <-; lia |].
      destruct (_ <? _) in H; [injection H as <-; lia |].
      destruct (Z.even c_lo) in H; injection H as <-; lia.
    + injection H as <-; lia.
    + injection H as <-; lia.
  - destruct (Z.ltb_spec (lowN * A) (c_lo * B)) as [Hlo | Hlo];
      destruct (Z.ltb_spec ((c_lo + 1) * B) (highN * A)) as [Hhi | Hhi];
      try discriminate H.
    + destruct (_ <? _) in H; [injection H as <-; lia |].
      destruct (_ <? _) in H; [injection H as <-; lia |].
      destruct (Z.even c_lo) in H; injection H as <-; lia.
    + injection H as <-; lia.
    + injection H as <-; lia.
Qed.

(** Between the midpoints, a multiple of a power of 10 that is an integer
    is the double itself. *)
Lemma interval_int_part_nonneg (p c : Z) :
  0 <= p ->
  lowN * sideA Em p <= c * sideB Em p <= highN * sideA Em p ->
  int_part c p = Z.pos m / D.
Proof.
  intros Hp. rewrite sideA_eq, sideB_eq, Hhigh.
  rewrite (Z.max_r (- p) 0), (Z.max_l p 0) by lia. change (10 ^ 0) with 1.
  intros [H1 H2]. unfold int_part.
  destruct (Z.leb_spec 0 p); [| lia].
  pose proof D_pos as HD.
  assert (Hex : Z.pos m = c * 10 ^ p * D) by nia.
  rewrite Hex. now rewrite Z.div_mul by lia.
Qed.

(** Between the midpoints of a double that is not an integer, every
    decimal has the integer part of the double. *)
Lemma interval_int_part_neg (p c : Z) :
  p < 0 -> Z.pos m mod D <> 0 ->
  lowN * sideA Em p <= c * sideB Em p <= highN * sideA Em p ->
  int_part c p = Z.pos m / D.
Proof.
  intros Hp Hfrac. rewrite sideA_eq, sideB_eq, Hhigh.
  rewrite (Z.max_l (- p) 0), (Z.max_r p 0) by lia. change (10 ^ 0) with 1.
  intros [H1 H2]. unfold int_part.
  destruct (Z.leb_spec 0 p); [lia |].
  pose proof D_pos as HD.
  set (T := 10 ^ (- p)) in *.
  assert (HT : 0 < T) by (apply Z.pow_pos_nonneg; lia).
  pose proof (Z.div_mod (Z.pos m) D ltac:(lia)) as Hm.
  pose proof (Z.mod_pos_bound (Z.pos m) D HD) as Hr.
  set (F := Z.pos m / D) in *. set (r := Z.pos m mod D) in *.
  assert (Hup : c < (F + 1) * T).
  { assert (c * (4 * D) < (F + 1) * T * (4 * D)); [| nia].
    assert (4 * Z.pos m + 2 < 4 * ((F + 1) * D)) by lia. nia. }
  assert (Hdown : F * T <= c).
  { assert (F * T * (4 * D) < (c + 1) * (4 * D)); [| nia].
    assert (4 * (F * D) < 4 * Z.pos m - 2) by lia. nia. }
  symmetry. apply Z.div_unique with (r := c - F * T); lia.
Qed.

(** The decimal cut below the double, with digits after the point, has
    the integer part of the double. *)
Lemma fallback_int_part (p : Z) :
  p < 0 -> int_part (Nm * sideA Em p / sideB Em p) p = Z.pos m / D.
Proof.
  intro Hp. rewrite sideA_eq, sideB_eq.
  rewrite (Z.max_l (- p) 0), (Z.max_r p 0) by lia. change (10 ^ 0) with 1.
  unfold int_part. destruct (Z.leb_spec 0 p); [lia |].
  pose proof D_pos as HD.
  set (T := 10 ^ (- p)) in *.
  assert (HT : 0 < T) by (apply Z.pow_pos_nonneg; lia).
  replace (4 * Z.pos m * T) with (4 * (Z.pos m * T)) by ring.
  replace (1 * (4 * D)) with (4 * D) by ring.
  rewrite Z.div_mul_cancel_l by lia.
  rewrite Z.div_div by lia.
  now rewrite Z.div_mul_cancel_r by lia.
Qed.

(** A double that is an integer is its own candidate at [p = 0]. *)
Lemma candidate_integer (incl : bool) :
  Z.pos m mod D = 0 -> candidate Nm Em lowN highN incl 0 <> None.
Proof.
  intro Hint. unfold candidate. rewrite sideA_eq, sideB_eq.
  change (Z.max (- 0) 0) with 0. change (Z.max 0 0) with 0.
  change (10 ^ 0) with 1.
  pose proof D_pos as HD.
  pose proof (Z.div_mod (Z.pos m) D ltac:(lia)) as Hm. rewrite Hint in Hm.
  replace (Nm * 1 / (1 * (4 * D))) with (Z.pos m / D).
  2:{ replace (4 * Z.pos m * 1) with (4 * Z.pos m) by ring.
      replace (1 * (4 * D)) with (4 * D) by ring.
      now rewrite Z.div_mul_cancel_l by lia. }
  set (F := Z.pos m / D) in *.
  assert (Hlo : lowN * 1 < F * (1 * (4 * D))) by (nia).
  destruct incl.
  - destruct (Z.leb_spec (lowN * 1) (F * (1 * (4 * D)))); [| lia].
    destruct (_ <=? _); [| discriminate].
    destruct (_ <? _); [discriminate |].
    destruct (_ <? _); [discriminate |].
    destruct (Z.even F); discriminate.
  - destruct (Z.ltb_spec (lowN * 1) (F * (1 * (4 * D)))); [| lia].
    destruct (_ <? _); [| discriminate].
    destruct (_ <? _); [discriminate |].
    destruct (_ <? _); [discriminate |].
    destruct (Z.even F); discriminate.
Qed.

(** The search returns a decimal with the integer part of the double,
    when it starts at or above [p = 0] for an integer and has fuel to go
    below [p = 0]. *)
Lemma shortest_int_part (incl : bool) (fuel : nat) :
  forall p,
    p - Z.of_nat fuel < 0 ->
    (Z.pos m mod D = 0 -> 0 <= p) ->
    int_part (fst (shortest fuel Nm Em lowN highN incl p))
             (snd (shortest fuel Nm Em lowN highN incl p)) = Z.pos m / D /\
    0 <= fst (shortest fuel Nm Em lowN highN incl p).
Proof.
  assert (Hhit : forall p c,
             (Z.pos m mod D = 0 -> 0 <= p) ->
             candidate Nm Em lowN highN incl p = Some c ->
             int_part c p = Z.pos m / D /\ 0 <= c).
  { intros p c Hint Hc. apply candidate_interval in Hc. split.
    - destruct (Z.le_gt_cases 0 p) as [Hp | Hp].
      + now apply interval_int_part_nonneg.
      + apply interval_int_part_neg; [lia | | exact Hc].
        intro Hz. specialize (Hint Hz). lia.
    - destruct (sides_pos p) as [HA HB]. nia. }
  assert (Hfall : forall p, p < 0 ->
             int_part (Nm * sideA Em p / sideB Em p) p = Z.pos m / D /\
             0 <= Nm * sideA Em p / sideB Em p).
  { intros p Hp. split; [now apply fallback_int_part |].
    destruct (sides_pos p) as [HA HB].
    apply Z.div_pos; [nia | lia]. }
  induction fuel as [| f IH]; intros p Hfuel Hint.
  - cbn [shortest].
    destruct (candidate Nm Em lowN highN incl p) as [c |] eqn:Hc.
    + cbn [fst snd]. now apply Hhit.
    + cbn [fst snd]. apply Hfall. cbn in Hfuel. lia.
  - cbn [shortest].
    destruct (candidate Nm Em lowN highN incl p) as [c |] eqn:Hc.
    + cbn [fst snd]. now apply Hhit.
    + apply IH; [lia |].
      intro Hz. specialize (Hint Hz).
      destruct (Z.eq_dec p 0) as [-> | Hne]; [| lia].
      exfalso. now apply (candidate_integer incl).
Qed.

End ShortestDecimal.

Section ParseIntTruncates.

Import JsNumber.

Lemma strip_zeros_int_part (fuel : nat) :
  forall c p, 0 <= c ->
    int_part (fst (strip_zeros fuel c p)) (snd (strip_zeros fuel c p)) =
      int_part c p /\
    0 <= fst (strip_zeros fuel c p).
Proof.
  induction fuel as [| f IH]; intros c p Hc; [now split |].
  cbn [strip_zeros].
  destruct (Z.ltb_spec 0 c) as [Hpos | Hzero]; cbn [andb]; [| now split].
  destruct (Z.eqb_spec (c mod 10) 0) as [Hmod | Hmod]; [| now split].
  assert (Hc10 : 0 <= c / 10) by (apply Z.div_pos; lia).
  destruct (IH (c / 10) (p + 1) Hc10) as [-> Hnn]. split; [| exact Hnn].
  pose proof (Z.div_mod c 10 ltac:(lia)) as Hdm. rewrite Hmod in Hdm.
  unfold int_part.
  destruct (Z.leb_spec 0 p) as [Hp | Hp].
  - destruct (Z.leb_spec 0 (p + 1)); [| lia].
    rewrite Z.pow_add_r by lia. change (10 ^ 1) with 10. lia.
  - destruct (Z.leb_spec 0 (p + 1)) as [Hp1 | Hp1].
    + replace p with (-1) by lia. cbn. lia.
    + replace (- p) with (1 + (- (p + 1))) by ring.
      rewrite Z.pow_add_r by lia. change (10 ^ 1) with 10.
      rewrite <- Z.div_div by (try lia; apply Z.pow_pos_nonneg; lia).
      reflexivity.
Qed.

Lemma find_up_bounds (X Y : Z) (fuel : nat) :
  0 < Y -> X < 10 ^ 16 * Y ->
  forall P n, P = 10 ^ n -> 1 <= n <= 16 -> 16 - n < Z.of_nat fuel ->
    n <= find_up fuel X Y P n <= 16.
Proof.
  intros HY HX. induction fuel as [| f IH]; intros P n HP Hn Hf; [lia |].
  cbn [find_up]. destruct (Z.ltb_spec X (P * Y)) as [Hlt | Hge]; [lia |].
  assert (n < 16).
  { destruct (Z.eq_dec n 16) as [-> | Hne]; [| lia]. subst P. lia. }
  assert (n + 1 <= find_up f X Y (10 * P) (n + 1) <= 16); [| lia].
  apply IH; [| lia | lia].
  subst P. rewrite Z.pow_add_r by lia. change (10 ^ 1) with 10. ring.
Qed.

Lemma find_down_le (X Y : Z) (fuel : nat) :
  forall Q n, find_down fuel X Y Q n <= n.
Proof.
  induction fuel as [| f IH]; intros Q n; [cbn; lia |].
  cbn [find_down]. destruct (_ <? _); [| lia].
  specialize (IH (10 * Q) (n - 1)). lia.
Qed.

(** For a double [m / 2^k] below 2^53, the magnitude is at most 16, and
    at least 1 when the double is an integer. *)
Lemma decimal_magnitude_bounds (m : positive) (k : Z) :
  0 <= k -> Z.pos m / 2 ^ k < 2 ^ 53 ->
  decimal_magnitude (4 * Z.pos m) (- k - 2) <= 16 /\
  (Z.pos m mod 2 ^ k = 0 -> 1 <= decimal_magnitude (4 * Z.pos m) (- k - 2)).
Proof.
  intros Hk Hlt. unfold decimal_magnitude.
  rewrite (Z.max_r (- k - 2) 0), (Z.max_l (- (- k - 2)) 0) by lia.
  change (2 ^ 0) with 1.
  replace (- (- k - 2)) with (k + 2) by ring.
  rewrite Z.pow_add_r by lia. change (2 ^ 2) with 4.
  set (D := 2 ^ k) in *.
  assert (HD : 0 < D) by (apply Z.pow_pos_nonneg; lia).
  assert (Hm : Z.pos m < D * 2 ^ 53).
  { pose proof (Z.div_mod (Z.pos m) D ltac:(lia)).
    pose proof (Z.mod_pos_bound (Z.pos m) D HD). nia. }
  assert (HX : 4 * Z.pos m * 1 < 10 ^ 16 * (D * 4)).
  { assert (2 ^ 53 < 10 ^ 16) by reflexivity. nia. }
  destruct (Z.leb_spec (D * 4) (4 * Z.pos m * 1)) as [Hge | Hless].
  - pose proof (find_up_bounds (4 * Z.pos m * 1) (D * 4) 400 ltac:(lia) HX
                  10 1 eq_refl ltac:(lia) ltac:(lia)) as Hb.
    split; [lia | intros _; lia].
  - pose proof (find_down_le (4 * Z.pos m * 1) (D * 4) 400 1 0) as Hb.
    split; [lia |].
    intro Hint. exfalso.
    pose proof (Z.div_mod (Z.pos m) D ltac:(lia)) as Hdm. rewrite Hint in Hdm.
    assert (0 < Z.pos m / D) by (pose proof (Pos2Z.is_pos m); nia).
    nia.
Qed.

Lemma shortest_decimal_int_part (m : positive) (k : Z) :
  0 <= k -> Z.pos m / 2 ^ k < 2 ^ 53 ->
  int_part (fst (shortest_decimal m (- k))) (snd (shortest_decimal m (- k))) =
    Z.pos m / 2 ^ k /\
  0 <= fst (shortest_decimal m (- k)).
Proof.
  intros Hk Hlt. unfold shortest_decimal.
  set (lowN := if (Z.pos m =? 2 ^ 52) && (-1074 <? - k)
               then 4 * Z.pos m - 1 else 4 * Z.pos m - 2).
  assert (Hlow : 4 * Z.pos m - 2 <= lowN < 4 * Z.pos m).
  { subst lowN. destruct (_ && _); lia. }
  destruct (decimal_magnitude_bounds m k Hk Hlt) as [Hn16 Hn1].
  set (n0 := decimal_magnitude (4 * Z.pos m) (- k - 2)) in *.
  pose proof (shortest_int_part m k Hk lowN (4 * Z.pos m + 2) Hlow eq_refl
                (Z.even (Z.pos m)) 16 (n0 - 1)) as Hs.
  cbv zeta in Hs.
  destruct Hs as [Hs1 Hs2]; [cbn; lia | intro Hint; specialize (Hn1 Hint); lia |].
  destruct (shortest 16 (4 * Z.pos m) (- k - 2) lowN (4 * Z.pos m + 2)
              (Z.even (Z.pos m)) (n0 - 1)) as [c p].
  cbn [fst snd] in Hs1, Hs2.
  destruct (strip_zeros_int_part 20 c p Hs2) as [H1 H2].
  rewrite H1. now split.
Qed.

Lemma digits2_pos_lower (m : positive) :
  2 ^ (Z.pos (digits2_pos m) - 1) <= Z.pos m.
Proof.
  induction m as [m IH | m IH |]; cbn [digits2_pos].
  - rewrite Pos2Z.inj_succ.
    replace (Z.succ (Z.pos (digits2_pos m)) - 1)
      with (1 + (Z.pos (digits2_pos m) - 1)) by lia.
    rewrite Z.pow_add_r by lia. change (2 ^ 1) with 2. lia.
  - rewrite Pos2Z.inj_succ.
    replace (Z.succ (Z.pos (digits2_pos m)) - 1)
      with (1 + (Z.pos (digits2_pos m) - 1)) by lia.
    rewrite Z.pow_add_r by lia. change (2 ^ 1) with 2. lia.
  - cbn. lia.
Qed.

(** A double below 2^53 has a non-positive exponent. *)
Lemma small_double_exponent (x : float) (s : bool) (m : positive) (e : Z) :
  Prim2SF x = S754_finite s m e -> Z.shiftl (Z.pos m) e < 2 ^ 53 -> e <= 0.
Proof.
  intros Hx Hlt. pose proof (Prim2SF_valid x) as Hv. rewrite Hx in Hv.
  unfold SpecFloat.valid_binary, bounded, canonical_mantissa, fexp in Hv.
  apply andb_true_iff in Hv as [Hv _]. apply Z.eqb_eq in Hv.
  destruct (Z.le_gt_cases e 0) as [Hle | Hgt]; [exact Hle |].
  exfalso. rewrite Z.shiftl_mul_pow2 in Hlt by lia.
  unfold SpecFloat.emin, prec, emax in Hv.
  assert (Hd : Z.pos (digits2_pos m) = 53) by lia.
  pose proof (digits2_pos_lower m) as Hm. rewrite Hd in Hm.
  assert (2 <= 2 ^ e).
  { change 2 with (2 ^ 1) at 1. apply Z.pow_le_mono_r; lia. }
  change (2 ^ (53 - 1)) with 4503599627370496 in Hm.
  change (2 ^ 53) with 9007199254740992 in Hlt. nia.
Qed.

Lemma parseInt_truncates (x : float) :
  plain_decimal x = true -> parseInt x = float_trunc x.
Proof.
  unfold plain_decimal, parseInt, toString, float_trunc.
  destruct (Prim2SF x) as [s | s | | s m e] eqn:Hx; try discriminate.
  - intros _. reflexivity.
  - intro H. apply andb_true_iff in H as [H H53].
    apply andb_true_iff in H as [H6 H21].
    apply Z.ltb_lt in H53, H6. apply Z.leb_le in H21.
    pose proof (small_double_exponent x s m e Hx H53) as He.
    assert (Hk : 0 <= - e) by lia.
    rewrite Z.shiftl_div_pow2 in H53 by lia.
    destruct (shortest_decimal_int_part m (- e) Hk H53) as [Hi Hc].
    rewrite Z.opp_involutive in Hi, Hc.
    unfold decimal_point in H6, H21. cbn [toString_sf].
    destruct (shortest_decimal m e) as [c p]. cbn [fst snd] in Hi, Hc.
    rewrite parseInt_format by (assumption || lia).
    rewrite Hi. unfold trunc_sme. rewrite Z.shiftl_div_pow2 by lia.
    reflexivity.
Qed.

End ParseIntTruncates.

Section TruncationFacts.

Import JsNumber.

(** Truncation is the floor for a value that is not negative, and lies at
    most one above the floor. *)
Lemma trunc_floor_sme (s : bool) (m : positive) (e : Z) :
  floor_sme s m e <= trunc_sme s m e <= floor_sme s m e + 1 /\
  (s = false -> trunc_sme s m e = floor_sme s m e).
Proof.
  unfold floor_sme, trunc_sme. destruct s; [| split; [lia | reflexivity]].
  split; [| discriminate].
  destruct (Z.le_gt_cases 0 e) as [He | He].
  - rewrite !Z.shiftl_mul_pow2 by lia. lia.
  - rewrite !Z.shiftl_div_pow2 by lia.
    assert (HD : 0 < 2 ^ (- e)) by (apply Z.pow_pos_nonneg; lia).
    pose proof (Z.div_mod (Z.pos m) (2 ^ (- e)) ltac:(lia)).
    pose proof (Z.mod_pos_bound (Z.pos m) (2 ^ (- e)) HD).
    pose proof (Z.div_mod (Z.neg m) (2 ^ (- e)) ltac:(lia)).
    pose proof (Z.mod_pos_bound (Z.neg m) (2 ^ (- e)) HD).
    nia.
Qed.

Lemma float_trunc_floor (v : float) (t f : Z) :
  float_trunc v = Some t -> float_floor v = Some f ->
  f <= t <= f + 1 /\ (0 <= f -> t = f).
Proof.
  unfold float_trunc, float_floor.
  destruct (Prim2SF v) as [s | s | | s m e]; try discriminate.
  - intros [= <-] [= <-]. lia.
  - intros [= <-] [= <-].
    destruct (trunc_floor_sme s m e) as [Hb Hs]. split; [exact Hb |].
    intro Hf. destruct s; [| now apply Hs].
    exfalso. unfold floor_sme in Hf.
    destruct (Z.le_gt_cases 0 e) as [He | He].
    + rewrite Z.shiftl_mul_pow2 in Hf by lia.
      assert (0 < 2 ^ e) by (apply Z.pow_pos_nonneg; lia). nia.
    + rewrite Z.shiftl_div_pow2 in Hf by lia.
      assert (HD : 0 < 2 ^ (- e)) by (apply Z.pow_pos_nonneg; lia).
      assert (Z.neg m / 2 ^ (- e) < 0); [| lia].
      apply Z.div_lt_upper_bound; lia.
Qed.

End TruncationFacts.

(** C2, as it stands, fails: at longitude -181 and zoom 8 the value handed
    to [parseInt] is about -0.711; its floor is -1 and the tile's x is 0. *)
Lemma deg2num_does_not_floor :
  x (@deg2num small_angle_library 0 (-181) 8) = Some 0 /\
  float_floor (xtile_value (-181) 8) = Some (-1).
Proof.
  split; vm_compute; reflexivity.
Qed.

(** C2, amended: the tile's x and y are [parseInt] of the two intermediate
    values, which is their truncation toward zero, for every value of
    magnitude below 2^53 that is written without exponent; truncation is
    the floor for a value that is not negative and at most one above it
    otherwise. *)
Theorem deg2num_truncates (L : Library) (lat_deg lon_deg : float)
    (zoom : nat) :
  (plain_decimal (xtile_value lon_deg zoom) = true ->
     x (deg2num lat_deg lon_deg zoom) = float_trunc (xtile_value lon_deg zoom)) /\
  (plain_decimal (ytile_value lat_deg zoom) = true ->
     y (deg2num lat_deg lon_deg zoom) = float_trunc (ytile_value lat_deg zoom)) /\
  (forall v t f,
      float_trunc v = Some t -> float_floor v = Some f ->
      f <= t <= f + 1 /\ (0 <= f -> t = f)).
Proof.
  split; [| split].
  - intro H. cbn [deg2num x]. now apply parseInt_truncates.
  - intro H. cbn [deg2num y]. now apply parseInt_truncates.
  - apply float_trunc_floor.
Qed.

Lemma deg2num_truncates_witness :
  x (@deg2num small_angle_library 0 (-181) 8) = Some 0 /\
  y (@deg2num small_angle_library 0 (-181) 8) = Some 128.
Proof.
  split.
  - rewrite (proj1 (deg2num_truncates small_angle_library 0 (-181) 8)).
    + vm_compute. reflexivity.
    + vm_compute. reflexivity.
  - rewrite (proj1 (proj2 (deg2num_truncates small_angle_library 0 (-181) 8))).
    + vm_compute. reflexivity.
    + vm_compute. reflexivity.
Defined.

(** C3, as it stands, fails: after start and stop the two timers still
    fire, at 5 seconds and at 15 minutes, and each firing runs a cycle that
    requests the tile of the position. *)
Lemma cycles_run_after_stop :
  let rt := Scheduler.plugin_stop
              (Scheduler.plugin_start {| Scheduler.excludeList := None |}
                 Scheduler.loaded) in
  map (fun c => (fst c, run unreachable_network 1 (snd c)))
      (@Scheduler.cycles small_angle_library at_origin 2 rt) =
    [(5000,
      Some [EvDebug (JStr "Retrieving stations via https://node.windy.com/pois/stations/tiles/8/128/128");
            EvRequest "https://node.windy.com/pois/stations/tiles/8/128/128";
            EvDebug (JStr "Error retrieving stations ${JSON.stringify(response)}")]);
     (900000,
      Some [EvDebug (JStr "Retrieving stations via https://node.windy.com/pois/stations/tiles/8/128/128");
            EvRequest "https://node.windy.com/pois/stations/tiles/8/128/128";
            EvDebug (JStr "Error retrieving stations ${JSON.stringify(response)}")])].
Proof.
  vm_compute. reflexivity.
Qed.

(** C3, amended: stop changes nothing; the timers set by start stay armed,
    and after stop every firing still runs a cycle, without end. *)
Theorem stop_leaves_timers_armed (L : Library)
    (position_at : Z -> option Position) (options : Scheduler.Options)
    (rt : Scheduler.Runtime) (n : nat) :
  let started := Scheduler.plugin_start options rt in
  Scheduler.plugin_stop started = started /\
  List.length (Scheduler.cycles position_at n (Scheduler.plugin_stop started))
    = n /\
  Forall (fun c =>
            snd c = checkAndPublishObservations
                      (Scheduler.excludedStations started)
                      (position_at (fst c)))
         (Scheduler.cycles position_at n (Scheduler.plugin_stop started)).
Proof.
  intro started. split; [reflexivity |].
  unfold Scheduler.plugin_stop.
  apply cycles_never_end, start_sets_interval.
Qed.

(* ================================================================== *)
(** * Further properties: the exclusion list *)
(* ================================================================== *)

Section SplitFacts.

Import Scheduler.

Lemma list_ascii_of_string_app (a b : string) :
  list_ascii_of_string (a ++ b) =
    (list_ascii_of_string a ++ list_ascii_of_string b)%list.
Proof.
  induction a as [| c a IH]; [reflexivity |]. cbn. now rewrite IH.
Qed.

Lemma space_is_no_comma (c : ascii) :
  is_space c = true -> (c =? ",")%char = false.
Proof.
  intro H. destruct (Ascii.eqb_spec c ","%char) as [-> | Hne]; [| reflexivity].
  discriminate H.
Qed.

(** A run of characters with no comma and no white space goes to the
    current piece. *)
Lemma split_aux_token (t rest cur : list ascii) (skip : bool) :
  forallb (fun c => negb (c =? ",")%char && negb (is_space c)) t = true ->
  split_aux (t ++ rest) cur [] skip =
    split_aux rest (rev t ++ cur) []
      (skip && match t with [] => true | _ => false end).
Proof.
  revert cur skip. induction t as [| c t IH]; intros cur skip Ht.
  - cbn. now rewrite andb_true_r.
  - cbn [forallb] in Ht. apply andb_true_iff in Ht as [Hc Ht].
    apply andb_true_iff in Hc as [Hcomma Hspace].
    apply negb_true_iff in Hcomma, Hspace.
    cbn [app split_aux]. rewrite Hcomma, Hspace.
    rewrite IH by exact Ht. cbn [app rev]. rewrite <- app_assoc.
    rewrite andb_false_r. cbn [app]. now rewrite andb_false_l.
Qed.

(** White space is dropped right after a separator and kept aside
    otherwise. *)
Lemma split_aux_blank (w rest cur ws : list ascii) (skip : bool) :
  forallb is_space w = true ->
  split_aux (w ++ rest) cur ws skip =
    if skip then split_aux rest cur ws true
    else split_aux rest cur (rev w ++ ws) false.
Proof.
  revert ws. induction w as [| c w IH]; intros ws Hw.
  - cbn. now destruct skip.
  - cbn [forallb] in Hw. apply andb_true_iff in Hw as [Hc Hw].
    cbn [app split_aux]. rewrite (space_is_no_comma c Hc), Hc.
    destruct skip.
    + now rewrite IH.
    + rewrite IH by exact Hw. cbn [rev]. now rewrite <- app_assoc.
Qed.

(** A piece, white space, a comma and white space: the piece is cut off
    and the white space is gone. *)
Lemma split_aux_piece (t w1 w2 rest : list ascii) (skip : bool) :
  forallb (fun c => negb (c =? ",")%char && negb (is_space c)) t = true ->
  forallb is_space w1 = true -> forallb is_space w2 = true ->
  split_aux (t ++ w1 ++ ","%char :: w2 ++ rest) [] [] skip =
    string_of_list_ascii t :: split_aux rest [] [] true.
Proof.
  intros Ht H1 H2.
  rewrite split_aux_token by exact Ht.
  rewrite split_aux_blank by exact H1.
  rewrite app_nil_r.
  assert (Hcomma : forall cur ws sk,
             split_aux (","%char :: w2 ++ rest) cur ws sk =
               string_of_list_ascii (rev cur) :: split_aux rest [] [] true).
  { intros cur ws sk. cbn [split_aux]. rewrite Ascii.eqb_refl.
    now rewrite split_aux_blank by exact H2. }
  destruct (skip && _); rewrite Hcomma, rev_involutive; reflexivity.
Qed.

Lemma split_aux_last (t : list ascii) (skip : bool) :
  forallb (fun c => negb (c =? ",")%char && negb (is_space c)) t = true ->
  split_aux t [] [] skip = [string_of_list_ascii t].
Proof.
  intro Ht. rewrite <- (app_nil_r t) at 1.
  rewrite split_aux_token by exact Ht. cbn [split_aux app].
  now rewrite app_nil_r, rev_involutive.
Qed.

Lemma split_aux_write_list (rest : list (string * string * string)) :
  well_written rest = true ->
  forall first skip,
    plain_token first = true ->
    split_aux (list_ascii_of_string (write_list first rest)) [] [] skip =
      first :: map snd rest.
Proof.
  induction rest as [| [[w1 w2] s] rest IH]; intros Hrest first skip Hfirst.
  - cbn [write_list map]. rewrite split_aux_last by exact Hfirst.
    now rewrite string_of_list_ascii_of_string.
  - cbn [well_written forallb fst snd] in Hrest.
    apply andb_true_iff in Hrest as [Hsep Hrest].
    apply andb_true_iff in Hsep as [Hw Hs].
    apply andb_true_iff in Hw as [H1 H2].
    cbn [write_list map snd].
    rewrite !list_ascii_of_string_app. cbn [list_ascii_of_string app].
    rewrite split_aux_piece by assumption.
    rewrite string_of_list_ascii_of_string. f_equal.
    now apply IH.
Qed.

(** A string without comma is one piece, kept as it is. *)
Lemma split_aux_comma_free (t cur ws : list ascii) :
  forallb (fun c => negb (c =? ",")%char) t = true ->
  split_aux t cur ws false =
    [string_of_list_ascii (rev cur ++ rev ws ++ t)].
Proof.
  revert cur ws. induction t as [| c t IH]; intros cur ws Ht.
  - cbn [split_aux]. now rewrite rev_app_distr, app_nil_r.
  - cbn [forallb] in Ht. apply andb_true_iff in Ht as [Hc Ht].
    apply negb_true_iff in Hc. cbn [split_aux]. rewrite Hc.
    destruct (is_space c).
    + rewrite IH by exact Ht. cbn [rev]. now rewrite <- !app_assoc.
    + rewrite IH by exact Ht. cbn [rev app].
      rewrite rev_app_distr, <- !app_assoc. reflexivity.
Qed.

Lemma forallb_rev_eq (A : Type) (f : A -> bool) (l : list A) :
  forallb f (rev l) = forallb f l.
Proof.
  induction l as [| a l IH]; [reflexivity |].
  cbn [rev forallb]. rewrite forallb_app, IH. cbn [forallb].
  rewrite andb_true_r. apply andb_comm.
Qed.

(** No piece has a comma. *)
Lemma split_aux_pieces (t cur ws : list ascii) (skip : bool) :
  forallb (fun c => negb (c =? ",")%char) cur = true ->
  forallb (fun c => negb (c =? ",")%char) ws = true ->
  forallb comma_free (split_aux t cur ws skip) = true.
Proof.
  revert cur ws skip. induction t as [| c t IH]; intros cur ws skip Hcur Hws.
  - cbn [split_aux forallb]. rewrite andb_true_r. unfold comma_free.
    rewrite list_ascii_of_string_of_list_ascii, forallb_rev_eq, forallb_app.
    now rewrite Hcur, Hws.
  - cbn [split_aux].
    destruct (c =? ",")%char eqn:Hc.
    + cbn [forallb]. rewrite IH by reflexivity. rewrite andb_true_r.
      unfold comma_free.
      now rewrite list_ascii_of_string_of_list_ascii, forallb_rev_eq.
    + destruct (is_space c).
      * destruct skip; apply IH; try assumption.
        cbn [forallb]. now rewrite Hc, Hws.
      * apply IH; [| reflexivity].
        cbn [forallb]. rewrite Hc, forallb_app. now rewrite Hcur, Hws.
Qed.

End SplitFacts.

(** X1: the exclusion list is read back from its writing: identifiers
    without comma or white space, separated by commas with any white
    space before and after each of them, are split into the same
    identifiers. *)
Theorem split_join_round_trip (first : string)
    (rest : list (string * string * string))
    (Hfirst : plain_token first = true)
    (Hrest : well_written rest = true) :
  Scheduler.split (write_list first rest) = first :: map snd rest.
Proof.
  unfold Scheduler.split. now apply split_aux_write_list.
Qed.

Lemma split_join_round_trip_witness :
  Scheduler.split "KSFO , KOAK,ksql" = ["KSFO"; "KOAK"; "ksql"].
Proof.
  apply (split_join_round_trip "KSFO" [(" ", " ", "KOAK"); ("", "", "ksql")]);
    reflexivity.
Defined.

(** X2: a list without comma is a single entry, kept character for
    character, white space at its ends included. *)
Theorem split_without_comma (s : string) (Hs : comma_free s = true) :
  Scheduler.split s = [s].
Proof.
  unfold Scheduler.split.
  rewrite split_aux_comma_free by exact Hs. cbn [rev app].
  now rewrite string_of_list_ascii_of_string.
Qed.

Lemma split_without_comma_witness :
  Scheduler.split "KSFO " = ["KSFO "].
Proof. apply (split_without_comma "KSFO "). reflexivity. Defined.

(** X3: no entry of the exclusion list contains a comma. *)
Theorem split_entries_comma_free (s : string) :
  forallb comma_free (Scheduler.split s) = true.
Proof.
  unfold Scheduler.split. now apply split_aux_pieces.
Qed.

(* ================================================================== *)
(** * Further properties: the timers *)
(* ================================================================== *)

Section TimerFacts.

Import Scheduler.

Context {L : Library}.
Variable position_at : Z -> option Position.

(** With only the interval timer pending, due at [d] and not in the
    past, the next [n] firings are at [d], [d + period], ... *)
Lemma cycles_of_interval (n : nat) :
  forall d c excluded,
    c <= d ->
    map fst (cycles position_at n
               {| clock := c; excludedStations := excluded;
                  timers := [Interval d Timing.period] |}) =
      map (fun k => d + Timing.period * Z.of_nat k) (seq 0 n).
Proof.
  induction n as [| n IH]; intros d c excluded Hc; [reflexivity |].
  cbn [cycles fire timers next_timer due_time rearm app excludedStations
       clock map fst seq].
  rewrite Z.max_r by exact Hc.
  rewrite IH by (unfold Timing.period, checkEveryNMinutes; lia).
  f_equal; [cbn; lia |].
  rewrite <- seq_shift, map_map. apply map_ext. intro k. lia.
Qed.

Lemma next_timer_count (l : list timer) :
  match next_timer l with
  | None => l = []
  | Some (t, others) =>
      count_intervals (others ++ rearm t) = count_intervals l
  end.
Proof.
  unfold count_intervals.
  induction l as [| t r IH]; [reflexivity |].
  cbn [next_timer].
  destruct (next_timer r) as [[u r'] |].
  - destruct (due_time u <? due_time t).
    + rewrite filter_app, length_app in *. cbn [filter].
      destruct (is_interval t); cbn [List.length app]; lia.
    + rewrite filter_app, length_app. cbn [filter].
      destruct t; cbn; lia.
  - subst r. destruct t; reflexivity.
Qed.

Lemma lifecycle_step_count (rt : Runtime) (ev : lifecycle) :
  count_intervals (timers (lifecycle_step position_at rt ev)) =
    (count_intervals (timers rt) + if is_start ev then 1 else 0)%nat.
Proof.
  destruct ev as [options | |]; cbn [lifecycle_step is_start].
  - unfold plugin_start, count_intervals. cbn [timers].
    rewrite filter_app, length_app. cbn. lia.
  - unfold plugin_stop. lia.
  - unfold fire. pose proof (next_timer_count (timers rt)) as Hn.
    destruct (next_timer (timers rt)) as [[t others] |]; cbn [timers]; lia.
Qed.

End TimerFacts.

(** X4: started with no timer pending, the plugin runs its first cycle 5
    seconds after the start and then one cycle every 15 minutes, counted
    from the start: at 900000, 1800000, ... milliseconds after it. *)
Theorem cycle_times (L : Library) (position_at : Z -> option Position)
    (options : Scheduler.Options) (rt : Scheduler.Runtime) (n : nat)
    (Hidle : Scheduler.timers rt = []) :
  map fst (Scheduler.cycles position_at (S n)
             (Scheduler.plugin_start options rt)) =
    (Scheduler.clock rt + 5000)
    :: map (fun k => Scheduler.clock rt + 900000 * Z.of_nat k) (seq 1 n).
Proof.
  unfold Scheduler.plugin_start. rewrite Hidle.
  cbn [Scheduler.cycles]. unfold Scheduler.fire.
  cbn [Scheduler.timers app Scheduler.next_timer Scheduler.due_time].
  assert (Hlt : (Scheduler.clock rt + Timing.period
                 <? Scheduler.clock rt + Timing.warm_up) = false).
  { apply Z.ltb_ge. unfold Timing.period, Timing.warm_up, checkEveryNMinutes.
    lia. }
  rewrite Hlt.
  cbn [Scheduler.rearm app Scheduler.clock Scheduler.excludedStations
       Scheduler.timers Scheduler.due_time map fst].
  rewrite cycles_of_interval
    by (unfold Timing.period, Timing.warm_up, checkEveryNMinutes; lia).
  f_equal.
  - unfold Timing.warm_up. lia.
  - rewrite <- seq_shift, map_map. apply map_ext. intro k.
    unfold Timing.period, checkEveryNMinutes. lia.
Qed.

Lemma cycle_times_witness :
  map fst (@Scheduler.cycles small_angle_library at_origin 4
             (Scheduler.plugin_start {| Scheduler.excludeList := None |}
                Scheduler.loaded)) =
    [5000; 900000; 1800000; 2700000].
Proof.
  apply (cycle_times small_angle_library at_origin
           {| Scheduler.excludeList := None |} Scheduler.loaded 3).
  reflexivity.
Defined.

(** X5: nothing ever removes an interval timer.  After any sequence of
    starts, stops and firings the number of interval timers pending is
    the number there was plus the number of starts: a plugin started
    [k] times runs [k] cycles per period, stopped or not. *)
Theorem interval_timers_accumulate (L : Library)
    (position_at : Z -> option Position) (history : list lifecycle)
    (rt : Scheduler.Runtime) :
  count_intervals
    (Scheduler.timers (fold_left (lifecycle_step position_at) history rt)) =
    (count_intervals (Scheduler.timers rt)
     + List.length (filter is_start history))%nat.
Proof.
  revert rt. induction history as [| ev history IH]; intro rt.
  - cbn. lia.
  - cbn [fold_left filter]. rewrite IH, lifecycle_step_count.
    destruct (is_start ev); cbn [List.length]; lia.
Qed.

(* ================================================================== *)
(** * Further properties: requests and publications *)
(* ================================================================== *)

Section PublicationFacts.

Context {L : Library}.

Lemma lower_char_idempotent (c : ascii) :
  lower_char (lower_char c) = lower_char c.
Proof.
  destruct c as [[] [] [] [] [] [] [] []]; reflexivity.
Qed.

Lemma toLowerCase_idempotent (s : string) :
  toLowerCase (toLowerCase s) = toLowerCase s.
Proof.
  induction s as [| c s IH]; [reflexivity |].
  cbn [toLowerCase]. now rewrite lower_char_idempotent, IH.
Qed.

Lemma append_assoc (a b c : string) : ((a ++ b) ++ c = a ++ b ++ c)%string.
Proof.
  induction a as [| x a IH]; [reflexivity |]. cbn. now rewrite IH.
Qed.

(** A status other than 200 takes the error branch. *)
Lemma station_callback_failure (station : JsVal) (url : string)
    (code : Z) (json : string) (body : RawReading) :
  code <> 200 ->
  station_callback station url (HttpResponse code json body) =
    [AppDebug (JStr ("Error retrieving " ++ url ++ ": " ++ json))].
Proof.
  intro Hne. unfold station_callback.
  destruct code as [| q | q]; try reflexivity.
  repeat (destruct q as [q | q |]; try reflexivity).
  contradiction.
Qed.

Lemma directory_callback_failure (excluded : list string) (code : Z)
    (json : string) (d : Directory) (fuel : nat) :
  code <> 200 ->
  directory_callback excluded (HttpResponse code json d) fuel =
    Some [AppDebug
            (JStr "Error retrieving stations ${JSON.stringify(response)}")].
Proof.
  intro Hne. unfold directory_callback.
  destruct code as [| q | q]; try reflexivity.
  repeat (destruct q as [q | q |]; try reflexivity).
  contradiction.
Qed.

Lemma run_app (net : Network) (fuel : nat) (a b : list effect) :
  run net fuel (a ++ b) =
    match run net fuel a, run net fuel b with
    | Some t1, Some t2 => Some (t1 ++ t2)%list
    | _, _ => None
    end.
Proof.
  induction a as [| e a IH].
  - cbn. now destruct (run net fuel b).
  - cbn [app run]. rewrite IH.
    destruct (run_effect net fuel e), (run net fuel a), (run net fuel b);
      try reflexivity.
    now rewrite app_assoc.
Qed.

(** The callback of a station request requests nothing and publishes at
    most one message, of eight values, under the plugin's identifier. *)
Lemma station_callback_trace (net : Network) (fuel : nat) (station : JsVal)
    (url : string) (res : HttpResult RawReading) :
  exists t,
    run net fuel (station_callback station url res) = Some t /\
    requested t = [] /\
    (List.length (published t) <= 1)%nat /\
    Forall (fun m => fst m = plugin_id /\ List.length (snd m) = 8%nat)
           (published t).
Proof.
  destruct res as [json | code json body].
  - eexists. split; [reflexivity |]. cbn. repeat split; auto.
  - destruct (Z.eq_dec code 200) as [-> | Hne].
    + destruct station; eexists; (split; [reflexivity |]); cbn;
        repeat split; auto.
    + rewrite station_callback_failure by exact Hne.
      eexists. split; [reflexivity |]. cbn. repeat split; auto.
Qed.

Lemma requested_app (a b : list event) :
  requested (a ++ b) = (requested a ++ requested b)%list.
Proof. apply flat_map_app. Qed.

Lemma published_app (a b : list event) :
  published (a ++ b) = (published a ++ published b)%list.
Proof. apply flat_map_app. Qed.

(** The trace of one station. *)
Lemma retrieveStationData_trace (net : Network) (fuel : nat)
    (excluded : list string) (station : JsVal) :
  exists t,
    run net fuel (retrieveStationData excluded station) = Some t /\
    requested t =
      (if includes excluded station then [] else [station_url station]) /\
    (List.length (published t) <= List.length (requested t))%nat /\
    Forall (fun m => fst m = plugin_id /\ List.length (snd m) = 8%nat)
           (published t).
Proof.
  unfold retrieveStationData, station_url.
  destruct (includes excluded station).
  - eexists. split; [reflexivity |]. cbn. repeat split; auto.
  - set (url := "https://node.windy.com/pois/stations/" ++ ToString station).
    destruct (station_callback_trace net fuel station url
                (station_response net url)) as (t & Ht & Hreq & Hlen & Hall).
    exists (EvDebug (JStr ("Retrieving station " ++ ToString station))
            :: EvRequest url :: t).
    split.
    + cbn [run]. rewrite run_effect_GetStation, Ht. cbn.
      now rewrite app_nil_r.
    + cbn [requested flat_map app]. fold (requested t). rewrite Hreq.
      split; [reflexivity |]. split.
      * cbn [published flat_map app List.length]. fold (published t). lia.
      * cbn [published flat_map app]. exact Hall.
Qed.

Lemma stations_trace (net : Network) (fuel : nat) (excluded : list string)
    (stations : list JsVal) :
  exists t,
    run net fuel (flat_map (retrieveStationData excluded) stations) = Some t /\
    requested t =
      map station_url
        (filter (fun s => negb (includes excluded s)) stations) /\
    (List.length (published t) <= List.length (requested t))%nat /\
    Forall (fun m => fst m = plugin_id /\ List.length (snd m) = 8%nat)
           (published t).
Proof.
  induction stations as [| s stations IH].
  - exists []. cbn. repeat split; auto.
  - destruct IH as (t2 & Ht2 & Hreq2 & Hlen2 & Hall2).
    destruct (retrieveStationData_trace net fuel excluded s)
      as (t1 & Ht1 & Hreq1 & Hlen1 & Hall1).
    exists (t1 ++ t2)%list. cbn [flat_map]. rewrite run_app, Ht1, Ht2.
    split; [reflexivity |].
    rewrite requested_app, published_app, Hreq1, Hreq2.
    split; [| split].
    + cbn [filter]. destruct (includes excluded s); reflexivity.
    + rewrite !length_app. rewrite Hreq1, Hreq2 in *. lia.
    + apply Forall_app. now split.
Qed.

End PublicationFacts.

(** X6: in a cycle whose directory request succeeds, the requests are the
    directory request followed by one request per decoded identifier
    outside the exclusion list, each at its endpoint, in the order of the
    decoding and as often as decoded, whatever the provider answers to
    them; so a cycle issues at most one request more than the decode loop
    has iterations. *)
Theorem requests_of_a_cycle (L : Library) (net : Network) (fuel : nat)
    (excluded : list string) (p : Position) (json : string) (d : Directory)
    (stations : list JsVal)
    (Hdir : directory_response net
              (tile_url (deg2num (latitude p) (longitude p) 8))
            = HttpResponse 200 json d)
    (Hdec : decode_stations fuel d = Some stations) :
  exists t,
    run net fuel (checkAndPublishObservations excluded (Some p)) = Some t /\
    requested t =
      tile_url (deg2num (latitude p) (longitude p) 8)
      :: map station_url
           (filter (fun s => negb (includes excluded s)) stations) /\
    (List.length (requested t) <= 1 + iterations d)%nat.
Proof.
  destruct (stations_trace net fuel excluded stations)
    as (t & Ht & Hreq & _).
  set (url := tile_url (deg2num (latitude p) (longitude p) 8)) in *.
  exists (EvDebug (JStr ("Retrieving stations via " ++ url))
          :: EvRequest url :: t).
  split; [| split].
  - cbn [checkAndPublishObservations]. rewrite run_directory_request.
    fold zoom in url. fold url. rewrite Hdir. cbn [directory_callback].
    rewrite Hdec. cbn [option_map]. now rewrite Ht.
  - cbn [requested flat_map app]. fold (requested t). now rewrite Hreq.
  - cbn [requested flat_map app List.length]. fold (requested t).
    rewrite Hreq, length_map.
    pose proof (filter_length_le (fun s => negb (includes excluded s))
                  stations) as Hle.
    apply decode_stations_result in Hdec as [_ Hl].
    assert (Hlen : List.length stations = iterations d)
      by (rewrite Hl; now rewrite length_map, Zrange_length).
    lia.
Qed.

Lemma requests_of_a_cycle_witness :
  exists t,
    @run scenario_network 2
      (@checkAndPublishObservations small_angle_library []
         (Some {| latitude := 0; longitude := 0 |})) = Some t /\
    requested t =
      ["https://node.windy.com/pois/stations/tiles/8/128/128";
       "https://node.windy.com/pois/stations/ABC"].
Proof.
  destruct (requests_of_a_cycle small_angle_library scenario_network 2 []
              {| latitude := 0; longitude := 0 |} "{}"
              {| items := JNum 7;
                 data := [JStr "ABC"; JNum 0; JNum 0; JNum 0; JNum 0; JNum 0;
                          JNum 0] |}
              [JStr "ABC"] eq_refl eq_refl) as (t & Ht & Hreq & _).
  exists t. split; [exact Ht | exact Hreq].
Defined.

(** X7: every message published while the stations are fetched goes under
    the plugin's identifier and has exactly eight values, and there are
    never more messages than station requests. *)
Theorem publications_have_eight_values (L : Library) (net : Network)
    (fuel : nat) (excluded : list string) (stations : list JsVal)
    (t : list event)
    (Ht : run net fuel (flat_map (retrieveStationData excluded) stations)
          = Some t) :
  (List.length (published t) <= List.length (requested t))%nat /\
  Forall (fun m => fst m = plugin_id /\ List.length (snd m) = 8%nat)
         (published t).
Proof.
  destruct (stations_trace net fuel excluded stations)
    as (t' & Ht' & _ & Hlen & Hall).
  rewrite Ht in Ht'. injection Ht' as <-. now split.
Qed.

Lemma publications_have_eight_values_witness :
  exists t,
    @run scenario_network 2
      (flat_map (@retrieveStationData small_angle_library []) [JStr "ABC"])
      = Some t /\
    List.length (published t) = 1%nat /\
    Forall (fun m => fst m = plugin_id /\ List.length (snd m) = 8%nat)
           (published t).
Proof.
  eexists. split; [vm_compute; reflexivity |].
  split; [reflexivity |].
  apply (proj2 (publications_have_eight_values small_angle_library
                  scenario_network 2 [] [JStr "ABC"] _ eq_refl)).
Defined.

(** X8: a station request that fails, by a transport error or by any
    status other than 200, publishes nothing and raises nothing: it only
    logs the URL and the response. *)
Theorem failed_station_fetch_publishes_nothing (L : Library)
    (station : JsVal) (url : string) (res : HttpResult RawReading)
    (Hfail : forall json body, res <> HttpResponse 200 json body) :
  exists json,
    station_callback station url res =
      [AppDebug (JStr ("Error retrieving " ++ url ++ ": " ++ json))].
Proof.
  destruct res as [json | code json body].
  - exists json. reflexivity.
  - exists json. apply station_callback_failure.
    intros ->. now apply (Hfail json body).
Qed.

Lemma failed_station_fetch_publishes_nothing_witness :
  exists json,
    @station_callback small_angle_library (JStr "ABC") "u"
      (HttpResponse 404 "{}"
         {| name := JNull; time := JNull; lat := JNull; lon := JNull;
            wind := JNull; gust := JNull; dir := JNull; temp := JNull |}) =
      [AppDebug (JStr ("Error retrieving " ++ "u" ++ ": " ++ json))].
Proof.
  apply (failed_station_fetch_publishes_nothing small_angle_library).
  intros json body. discriminate.
Defined.

(** X9: a directory request that fails, by a transport error or by any
    status other than 200, fetches no station: it logs one fixed message,
    in which the response is not substituted. *)
Theorem failed_directory_fetch_fetches_nothing (L : Library)
    (excluded : list string) (res : HttpResult Directory) (fuel : nat)
    (Hfail : forall json d, res <> HttpResponse 200 json d) :
  directory_callback excluded res fuel =
    Some [AppDebug
            (JStr "Error retrieving stations ${JSON.stringify(response)}")].
Proof.
  destruct res as [json | code json d].
  - reflexivity.
  - apply directory_callback_failure.
    intros ->. now apply (Hfail json d).
Qed.

Lemma failed_directory_fetch_fetches_nothing_witness :
  @directory_callback small_angle_library [] (HttpError "undefined") 0 =
    Some [AppDebug
            (JStr "Error retrieving stations ${JSON.stringify(response)}")].
Proof.
  apply (failed_directory_fetch_fetches_nothing small_angle_library).
  intros json d. discriminate.
Defined.

(** X10: for a string identifier and a 200 response the callback publishes
    one message whose paths are [observations.windy.<id>.<field>] for the
    eight fields in the order of the source, with the identifier in lower
    case; the url value ends in the same lower-case identifier. *)
Theorem published_paths (L : Library) (s url json : string)
    (body : RawReading) :
  exists values,
    station_callback (JStr s) url (HttpResponse 200 json body) =
      [HandleMessage plugin_id values] /\
    map path values =
      map (fun field => "observations.windy." ++ toLowerCase s ++ field)
          observation_fields /\
    nth 7 (map value values) (PScalar JNull) =
      PScalar (JStr ("https://www.windy.com/station/" ++ toLowerCase s)) /\
    toLowerCase (toLowerCase s) = toLowerCase s.
Proof.
  eexists. split; [reflexivity |]. split; [| split].
  - cbn [map path observation_fields]. unfold observationsKey.
    repeat (f_equal; [now rewrite !append_assoc |]). reflexivity.
  - cbn [map value nth]. now rewrite toLowerCase_idempotent.
  - apply toLowerCase_idempotent.
Qed.

(** X11: identifiers that differ only in the case of their letters are
    told apart by the exclusion list but publish to the same paths: with
    the same reading, their messages are equal. *)
Theorem case_variants_share_paths (L : Library) (s1 s2 url1 url2 j1 j2 : string)
    (body : RawReading) (excluded : list string)
    (Hcase : toLowerCase s1 = toLowerCase s2)
    (Hin : In s1 excluded) (Hout : ~ In s2 excluded) :
  includes excluded (JStr s1) = true /\
  includes excluded (JStr s2) = false /\
  station_callback (JStr s1) url1 (HttpResponse 200 j1 body) =
    station_callback (JStr s2) url2 (HttpResponse 200 j2 body).
Proof.
  split; [now apply includes_In |]. split.
  - destruct (includes excluded (JStr s2)) eqn:E; [| reflexivity].
    apply includes_In in E. contradiction.
  - cbn [station_callback]. now rewrite Hcase.
Qed.

Lemma case_variants_share_paths_witness :
  @includes ["ksfo"] (JStr "KSFO") = false.
Proof.
  apply (case_variants_share_paths small_angle_library "ksfo" "KSFO" "u" "u"
           "{}" "{}"
           {| name := JNull; time := JNull; lat := JNull; lon := JNull;
              wind := JNull; gust := JNull; dir := JNull; temp := JNull |}
           ["ksfo"]).
  - reflexivity.
  - left. reflexivity.
  - intros [H | []]. discriminate H.
Defined.

(** X12: an identifier that is not a string (a number of the listing, or
    [undefined] for an offset outside it) is never excluded: it is
    requested at the endpoint named by its text, and a 200 response then
    raises a TypeError and publishes nothing. *)
Theorem non_string_station (L : Library) (excluded : list string)
    (station : JsVal) (json : string) (body : RawReading)
    (Hns : forall s, station <> JStr s) :
  retrieveStationData excluded station =
    [AppDebug (JStr ("Retrieving station " ++ ToString station));
     GetStation (station_url station)
       (station_callback station (station_url station))] /\
  station_callback station (station_url station)
    (HttpResponse 200 json body) = [Throw "TypeError"].
Proof.
  destruct station as [| | b | v | s]; try (split; reflexivity).
  exfalso. now apply (Hns s).
Qed.

Lemma non_string_station_witness :
  @retrieveStationData small_angle_library ["undefined"] JUndefined =
    [AppDebug (JStr "Retrieving station undefined");
     GetStation "https://node.windy.com/pois/stations/undefined"
       (@station_callback small_angle_library JUndefined
          "https://node.windy.com/pois/stations/undefined")].
Proof.
  apply (non_string_station small_angle_library ["undefined"] JUndefined "{}"
           {| name := JNull; time := JNull; lat := JNull; lon := JNull;
              wind := JNull; gust := JNull; dir := JNull; temp := JNull |}).
  intros s. discriminate.
Defined.

(** X13: the converters return null only for null.  A missing key
    ([undefined]) gives NaN, and a temperature that is a string gives the
    string followed by 273.15. *)
Theorem converters_null_only_for_null (L : Library) (v : JsVal) :
  (degreesToRadians v = JNull <-> v = JNull) /\
  (celsiusToKelvin v = JNull <-> v = JNull) /\
  degreesToRadians JUndefined = JNum nan /\
  celsiusToKelvin JUndefined = JNum nan /\
  (forall s, celsiusToKelvin (JStr s) = JStr (s ++ "273.15")).
Proof.
  split; [| split; [| split; [| split]]].
  - destruct v; split; intro H; try discriminate H; reflexivity.
  - destruct v; split; intro H; try discriminate H; reflexivity.
  - reflexivity.
  - reflexivity.
  - intro s. unfold celsiusToKelvin, js_add. cbn [is_null ToString].
    assert (Hk : JsNumber.toString 273.15 = "273.15")
      by (vm_compute; reflexivity).
    now rewrite Hk.
Qed.

(* ================================================================== *)
(** * Further properties: degenerate widths and positions *)
(* ================================================================== *)

Section DegenerateCounts.

Context {L : Library}.

Lemma binary_round_aux_sign (s : bool) (mx ex : Z) (lx : location) :
  signed_or_nan s (binary_round_aux prec emax s mx ex lx).
Proof.
  unfold binary_round_aux.
  destruct (shr_fexp prec emax mx ex lx) as [mrs' e'].
  destruct (shr_fexp prec emax _ e' loc_Exact) as [mrs'' e''].
  destruct (shr_m mrs'') as [| q | q]; try (cbn; auto; fail).
  match goal with
  | |- context [if ?b then _ else _] => destruct b
  end; reflexivity.
Qed.

(** The length of an array is not negative. *)
Lemma length_sign (n : nat) :
  signed_or_nan false (Prim2SF (of_uint63 (Uint63.of_Z (Z.of_nat n)))).
Proof.
  rewrite of_uint63_spec.
  pose proof (Uint63.to_Z_bounded (Uint63.of_Z (Z.of_nat n))) as Hb.
  destruct (Uint63.to_Z (Uint63.of_Z (Z.of_nat n))) as [| q | q];
    cbn [binary_normalize].
  - reflexivity.
  - unfold binary_round.
    destruct (shl_align _ _ _) as [mz ez]. apply binary_round_aux_sign.
  - lia.
Qed.

Lemma SFdiv_sign (sx sy : bool) (x y : spec_float) :
  signed_or_nan sx x -> signed_or_nan sy y ->
  signed_or_nan (xorb sx sy) (SFdiv prec emax x y).
Proof.
  destruct x as [s1 | s1 | | s1 m1 e1], y as [s2 | s2 | | s2 m2 e2];
    cbn [signed_or_nan SFdiv]; intros; subst; try reflexivity; try exact I.
  destruct (SFdiv_core_binary prec emax (Z.pos m1) e1 (Z.pos m2) e2)
    as [[mz ez] lz].
  apply binary_round_aux_sign.
Qed.

(** A count that is NaN or has its sign bit set lets no iteration run. *)
Lemma ceiling_count_negative (c : float) :
  signed_or_nan true (Prim2SF c) -> ceiling_count c = Some 0.
Proof.
  unfold ceiling_count.
  destruct (Prim2SF c) as [s | s | | s m e]; cbn [signed_or_nan]; intro H;
    subst; try reflexivity.
  f_equal. unfold JsNumber.ceil_sme.
  pose proof (proj2 (Z.shiftl_nonneg (Z.pos m) e) ltac:(lia)). lia.
Qed.

Lemma decode_nothing (d : Directory) (fuel : nat) :
  ceiling_count (stationCount d) = Some 0 -> (0 < fuel)%nat ->
  decode_stations fuel d = Some [].
Proof.
  intros Hc Hfuel.
  assert (Hr : reachable (stationCount d) = true)
    by (unfold reachable; now rewrite Hc).
  assert (Hi : iterations d = 0%nat)
    by (unfold iterations; now rewrite Hc).
  rewrite decode_stations_reachable by (assumption || lia).
  now rewrite Hi.
Qed.

Lemma negative_or_nan_sign (c : float) :
  negative_or_nan c = true -> signed_or_nan true (Prim2SF c).
Proof.
  unfold negative_or_nan.
  destruct (Prim2SF c); cbn [signed_or_nan]; auto.
Qed.

End DegenerateCounts.

(** X14: an empty listing decodes to no station whatever the width field
    is: a number (zero, NaN and the infinities included), a string, null,
    or missing. *)
Theorem empty_listing_decodes_nothing (L : Library) (width : JsVal)
    (fuel : nat) (Hfuel : (0 < fuel)%nat) :
  decode_stations fuel {| items := width; data := [] |} = Some [].
Proof.
  apply decode_nothing; [| exact Hfuel].
  unfold stationCount, ceiling_count. cbn [data items List.length Z.of_nat].
  rewrite div_spec.
  assert (H0 : Prim2SF (of_uint63 (Uint63.of_Z 0)) = S754_zero false)
    by (vm_compute; reflexivity).
  rewrite H0.
  destruct (Prim2SF (ToNumber width)) as [s | s | | s m e]; reflexivity.
Qed.

Lemma empty_listing_decodes_nothing_witness :
  @decode_stations small_angle_library 1
    {| items := JNull; data := [] |} = Some [].
Proof.
  apply (empty_listing_decodes_nothing small_angle_library JNull 1). lia.
Defined.

(** X15: a width that converts to NaN (a missing [items] field among
    them) or to a number with the sign bit set (negative numbers and -0)
    decodes to no station whatever the listing is. *)
Theorem degenerate_width_decodes_nothing (L : Library) (width : JsVal)
    (listing : list JsVal) (fuel : nat)
    (Hwidth : negative_or_nan (ToNumber width) = true)
    (Hfuel : (0 < fuel)%nat) :
  decode_stations fuel {| items := width; data := listing |} = Some [].
Proof.
  apply decode_nothing; [| exact Hfuel].
  apply ceiling_count_negative.
  unfold stationCount. cbn [data items]. rewrite div_spec.
  apply (SFdiv_sign false true).
  - apply length_sign.
  - now apply negative_or_nan_sign.
Qed.

Lemma degenerate_width_decodes_nothing_witness :
  @decode_stations small_angle_library 1
    {| items := JUndefined; data := [JStr "A"; JStr "B"] |} = Some [].
Proof.
  apply (degenerate_width_decodes_nothing small_angle_library JUndefined
           [JStr "A"; JStr "B"] 1).
  - vm_compute. reflexivity.
  - lia.
Defined.

(** X16: a longitude that is NaN makes the tile's x NaN, at every zoom and
    latitude, and the cycle still requests the directory, at a URL whose x
    component is the text NaN. *)
Theorem nan_longitude (L : Library) (excluded : list string)
    (lat_deg lon_deg : float) (Hnan : Prim2SF lon_deg = S754_nan) :
  (forall zoom, x (deg2num lat_deg lon_deg zoom) = None) /\
  exists url_y,
    retrieveObservations excluded lat_deg lon_deg =
      [AppDebug (JStr ("Retrieving stations via "
                       ++ "https://node.windy.com/pois/stations/tiles/8/NaN/"
                       ++ url_y));
       GetDirectory ("https://node.windy.com/pois/stations/tiles/8/NaN/"
                     ++ url_y)
         (directory_callback excluded)].
Proof.
  assert (Hx : forall zoom, x (deg2num lat_deg lon_deg zoom) = None).
  { intro zoom. cbn [deg2num x].
    unfold JsNumber.parseInt, JsNumber.toString, xtile_value.
    rewrite mul_spec, div_spec, add_spec, Hnan. reflexivity. }
  split; [exact Hx |].
  exists (JsNumber.int_toString (y (deg2num lat_deg lon_deg 8))).
  unfold retrieveObservations, tile_url. fold zoom.
  rewrite (Hx zoom). reflexivity.
Qed.

Lemma nan_longitude_witness :
  x (@deg2num small_angle_library 0 nan 8) = None.
Proof.
  apply (nan_longitude small_angle_library [] 0 nan).
  vm_compute. reflexivity.
Defined.

(* ================================================================== *)
(** * Further properties: configuration and surplus iterations *)
(* ================================================================== *)

Section ConfigurationFacts.

Context {L : Library}.
Variable position_at : Z -> option Position.

Lemma lifecycle_step_keeps_list (rt : Scheduler.Runtime) (ev : lifecycle) :
  is_start ev = false ->
  Scheduler.excludedStations (lifecycle_step position_at rt ev) =
    Scheduler.excludedStations rt.
Proof.
  destruct ev as [options | |]; cbn [is_start lifecycle_step];
    intro H; try discriminate H.
  - reflexivity.
  - unfold Scheduler.fire.
    destruct (Scheduler.next_timer (Scheduler.timers rt)) as [[t others] |];
      reflexivity.
Qed.

Lemma history_keeps_list (history : list lifecycle) :
  forallb (fun ev => negb (is_start ev)) history = true ->
  forall rt,
    Scheduler.excludedStations
      (fold_left (lifecycle_step position_at) history rt) =
      Scheduler.excludedStations rt.
Proof.
  induction history as [| ev history IH]; intros H rt; [reflexivity |].
  cbn [forallb] in H. apply andb_true_iff in H as [Hev H].
  apply negb_true_iff in Hev.
  cbn [fold_left]. rewrite IH by exact H.
  now apply lifecycle_step_keeps_list.
Qed.


End ConfigurationFacts.

(** X17: the exclusion list in force is the one of the latest start,
    whatever happened before it and however many stops and firings
    followed: the text of that start's [excludeList] split at its commas,
    or the empty list when the text is missing or empty. *)
Theorem exclusion_list_is_of_latest_start (L : Library)
    (position_at : Z -> option Position) (before after : list lifecycle)
    (options : Scheduler.Options) (rt : Scheduler.Runtime)
    (Hafter : forallb (fun ev => negb (is_start ev)) after = true) :
  Scheduler.excludedStations
    (fold_left (lifecycle_step position_at)
       (before ++ Start options :: after) rt) =
    match Scheduler.excludeList options with
    | None | Some "" => []
    | Some text => Scheduler.split text
    end.
Proof.
  rewrite fold_left_app. cbn [fold_left].
  rewrite history_keeps_list by exact Hafter.
  cbn [lifecycle_step]. unfold Scheduler.plugin_start.
  cbn [Scheduler.excludedStations].
  destruct (Scheduler.excludeList options) as [[| c r] |]; reflexivity.
Qed.

Lemma exclusion_list_is_of_latest_start_witness :
  Scheduler.excludedStations
    (fold_left (@lifecycle_step small_angle_library at_origin)
       ([Start {| Scheduler.excludeList := Some "KSFO" |}; Fire]
        ++ Start {| Scheduler.excludeList := None |} :: [Stop; Fire])
       Scheduler.loaded) = [].
Proof.
  apply (exclusion_list_is_of_latest_start small_angle_library at_origin
           [Start {| Scheduler.excludeList := Some "KSFO" |}; Fire]
           [Stop; Fire] {| Scheduler.excludeList := None |} Scheduler.loaded).
  reflexivity.
Defined.

(** X18: when the configured text is not empty and writes identifiers
    without comma or white space, separated by commas with any white
    space before and after each of them, a string identifier is excluded
    after the start exactly when it is one of them. *)
Theorem configured_identifiers_are_excluded (L : Library)
    (first : string) (rest : list (string * string * string))
    (rt : Scheduler.Runtime) (s : string)
    (Hfirst : plain_token first = true)
    (Hrest : well_written rest = true)
    (Htext : write_list first rest <> "") :
  includes
    (Scheduler.excludedStations
       (Scheduler.plugin_start
          {| Scheduler.excludeList := Some (write_list first rest) |} rt))
    (JStr s) = true <-> In s (first :: map snd rest).
Proof.
  unfold Scheduler.plugin_start.
  cbn [Scheduler.excludedStations Scheduler.excludeList].
  destruct (write_list first rest) as [| c r] eqn:E;
    [now contradiction Htext |].
  rewrite <- E. unfold Scheduler.split.
  rewrite split_aux_write_list by assumption.
  apply includes_In.
Qed.

Lemma configured_identifiers_are_excluded_witness :
  includes
    (Scheduler.excludedStations
       (Scheduler.plugin_start
          {| Scheduler.excludeList := Some "KSFO, KOAK" |} Scheduler.loaded))
    (JStr "KOAK") = true.
Proof.
  apply (configured_identifiers_are_excluded small_angle_library "KSFO"
           [("", " ", "KOAK")] Scheduler.loaded "KOAK");
    try reflexivity.
  - discriminate.
  - right. left. reflexivity.
Defined.

(** X19: an iteration whose offset [7 * i] lies outside the listing passes
    [undefined], and the station fetcher then requests the endpoint named
    undefined, whatever the exclusion list. *)
Theorem surplus_iterations_request_undefined (L : Library)
    (excluded : list string) (d : Directory) (fuel : nat)
    (stations : list JsVal) (i : nat)
    (Hdec : decode_stations fuel d = Some stations)
    (Hi : (i < List.length stations)%nat)
    (Hout : (List.length (data d) <= 7 * i)%nat) :
  nth i stations JNull = JUndefined /\
  retrieveStationData excluded (nth i stations JNull) =
    [AppDebug (JStr "Retrieving station undefined");
     GetStation "https://node.windy.com/pois/stations/undefined"
       (station_callback JUndefined
          "https://node.windy.com/pois/stations/undefined")].
Proof.
  assert (Hn : nth i stations JNull = JUndefined).
  { rewrite (nth_indep stations JNull JUndefined Hi).
    rewrite (decode_stride_is_7 L d fuel stations i Hdec Hi).
    unfold element. apply nth_overflow. lia. }
  split; [exact Hn |]. rewrite Hn. reflexivity.
Qed.

Lemma surplus_iterations_request_undefined_witness :
  nth 1 [JStr "A"; JUndefined] JNull = JUndefined.
Proof.
  apply (surplus_iterations_request_undefined small_angle_library []
           {| items := JNum 3;
              data := [JStr "A"; JNum 1; JNum 2; JStr "B"; JNum 3; JNum 4] |}
           3 [JStr "A"; JUndefined] 1).
  - vm_compute. reflexivity.
  - cbn. lia.
  - cbn. lia.
Defined.
